(** * figmasset: a shallow embedding of [src/index.js]

    The program fetches a Figma document, resolves frames by identifier or
    by name, collects the immediate children of those frames as named
    assets, asks the image endpoint for one URL per asset and scale, and
    optionally registers the images in a map's image store.

    Modelling choices.
    - Objects used as dictionaries (the asset list, the image record, the
      [images] table of a response) are finite maps over their own
      enumerable properties ([gmap string _]).  Reading a property that is
      not an own one sees [Object.prototype] ([getProperty]), and an
      assignment under [__proto__] reaches the inherited setter
      ([assign]).  Every call is taken in a fresh realm: the properties an
      earlier call may have left on a built-in function are not modelled.
      The enumeration order of [Object.keys] is outside the model: a map
      is enumerated in the order of [map_to_list].
    - [async] functions are functions into [Result]: a rejected promise is
      [Throw].  [Promise.all] over an array is a sequential [mapM]; which
      rejection wins when several requests fail is not modelled.
    - The injected transport [fetchFunc] is a function of the request.
    - Parameters with a default in the source ([scales = [1]],
      [format = 'png'], [frameIds = []], [frameNames = []], [path = ''])
      are ordinary arguments here.
    - Numbers are exact non-negative decimals together with [NaN] and
      [-Infinity] (the two other results [Math.max] and unary [+] can
      produce here).  They are printed as JavaScript prints them, with an
      exponent from [1e21] on and below [1e-6].  A decimal stands for the
      double nearest to it, which is faithful for decimals of at most 15
      significant digits ([plain] below adds that bound where a number is
      printed and read back). *)

From Stdlib Require Import Ascii String.
From stdpp Require Import gmap strings list pretty.

(** ** Values *)

(** A number: [Dec m e] stands for [m / 10^e]. *)
Inductive Number :=
| NaN
| NegInfinity
| Dec (m : N) (e : nat).

(** Values: what a JSON leaf, an identifier or a URL can be, and what
    reading a property can find in [Object.prototype]: [VInherited member]
    is the value every plain object inherits under [member], a built-in
    function, or the prototype itself for [__proto__]. *)
Inductive Value :=
| VUndefined
| VNull
| VBool (b : bool)
| VNum (n : Number)
| VStr (s : string)
| VInherited (member : string).

(** A reference that may be absent; an object is always truthy. *)
Inductive Ref (A : Type) :=
| Undefined
| Null
| Obj (a : A).
Arguments Undefined {A}.
Arguments Null {A}.
Arguments Obj {A} a.

Global Instance Number_eq_dec : EqDecision Number.
Proof. solve_decision. Defined.

Global Instance Value_eq_dec : EqDecision Value.
Proof. solve_decision. Defined.

(** [Boolean(x)] on a primitive. *)
Definition Boolean (v : Value) : bool :=
  match v with
  | VUndefined | VNull => false
  | VBool b => b
  | VNum NaN => false
  | VNum NegInfinity => true
  | VNum (Dec m _) => negb (m =? 0)%N
  | VStr s => negb (String.eqb s "")
  | VInherited _ => true
  end.

(** [Boolean(x)] on a possibly absent object. *)
Definition BooleanRef {A} (r : Ref A) : bool :=
  match r with
  | Obj _ => true
  | _ => false
  end.

(** [array.find(p)]: the first element satisfying [p], else [undefined]. *)
Definition Array_find {A} (undef : A) (p : A → bool) (l : list A) : A :=
  default undef (List.find p l).

Definition toOption {A} (r : Ref A) : option A :=
  match r with
  | Obj a => Some a
  | _ => None
  end.

(** ** Numbers and strings *)

(** Drop trailing zeros of the fraction: the value is unchanged. *)
Fixpoint normalize (m : N) (e : nat) : N * nat :=
  match e with
  | O => (m, O)
  | S e' => if (m mod 10 =? 0)%N then normalize (m / 10) e' else (m, e)
  end.

(** The [e] low decimal digits of [r], zero padded, in front of [acc]. *)
Fixpoint fracDigits (e : nat) (r : N) (acc : string) : string :=
  match e with
  | O => acc
  | S e' => fracDigits e' (r / 10) (String (pretty_N_char (r mod 10)) acc)
  end.

(** Drop the trailing zeros of [m]; [fuel] bounds the number of digits. *)
Fixpoint dropZeros (fuel : nat) (m : N) : N :=
  match fuel with
  | O => m
  | S fuel' =>
      if (m mod 10 =? 0)%N && negb (m =? 0)%N then dropZeros fuel' (m / 10)
      else m
  end.

(** Whether [m / 10^e], with [e] in lowest terms, is printed with an
    exponent: the decimal point falls more than 21 places after the first
    digit of [m], or 6 places or more before it. *)
Definition usesExponent (m : N) (e : nat) : bool :=
  let n := String.length (pretty m) in
  negb ((n <=? 21 + e)%nat && (e <? n + 6)%nat).

(** The digits of the mantissa, with a dot after the first when there are
    several. *)
Definition dotAfterFirst (digits : string) : string :=
  match digits with
  | String d (String _ _ as rest) => String d ("." +:+ rest)
  | _ => digits
  end.

(** [String(n)], also the conversion used by template literals. *)
Definition Number_toString (n : Number) : string :=
  match n with
  | NaN => "NaN"
  | NegInfinity => "-Infinity"
  | Dec m e =>
      let '(m', e') := normalize m e in
      if usesExponent m' e' then
        let n := String.length (pretty m') in
        dotAfterFirst (pretty (dropZeros n m')) +:+ "e" +:+
        (if (e' + 21 <? n)%nat
         then "+" +:+ pretty (N.of_nat (n - 1 - e'))
         else "-" +:+ pretty (N.of_nat (e' + 1 - n)))
      else
        match e' with
        | O => pretty m'
        | S _ =>
            pretty (m' / 10 ^ N.of_nat e')%N +:+ "." +:+
            fracDigits e' (m' mod 10 ^ N.of_nat e')%N ""
        end
  end.

(** [String(v)].  A built-in function is printed the way V8 prints it;
    [__proto__] yields the prototype object and [constructor] the function
    [Object]. *)
Definition toString (v : Value) : string :=
  match v with
  | VUndefined => "undefined"
  | VNull => "null"
  | VBool true => "true"
  | VBool false => "false"
  | VNum n => Number_toString n
  | VStr s => s
  | VInherited member =>
      if String.eqb member "__proto__" then "[object Object]"
      else "function " +:+
           (if String.eqb member "constructor" then "Object" else member) +:+
           "() { [native code] }"
  end.

(** The number written by a string of decimal digits, after [acc]. *)
Fixpoint digitsVal (s : string) (acc : N) : option N :=
  match s with
  | EmptyString => Some acc
  | String c s' =>
      match Ascii.is_nat c with
      | Some d => digitsVal s' (acc * 10 + N.of_nat d)%N
      | None => None
      end
  end.

(** Split at the first dot. *)
Fixpoint splitDot (s : string) : string * option string :=
  match s with
  | EmptyString => (EmptyString, None)
  | String c s' =>
      if Ascii.eqb c "." then (EmptyString, Some s')
      else let '(a, b) := splitDot s' in (String c a, b)
  end.

(** Unary [+] on a string of digits and dots (what is left of a key after
    [replace(/[^0-9.]/g, '')]): the empty string is 0, a decimal literal is
    its value, anything else is [NaN]. *)
Definition toNumber (s : string) : Number :=
  match splitDot s with
  | (a, None) =>
      match digitsVal a 0 with
      | Some n => Dec n 0
      | None => NaN
      end
  | (a, Some b) =>
      if String.eqb a "" && String.eqb b "" then NaN
      else match digitsVal (a +:+ b) 0 with
           | Some n => Dec n (String.length b)
           | None => NaN
           end
  end.

(** [a < b] *)
Definition Number_lt (a b : Number) : bool :=
  match a, b with
  | Dec m1 e1, Dec m2 e2 =>
      (m1 * 10 ^ N.of_nat e2 <? m2 * 10 ^ N.of_nat e1)%N
  | NegInfinity, Dec _ _ => true
  | _, _ => false
  end.

(** [Math.max(...l)]: [-Infinity] on no argument, [NaN] as soon as one
    argument is [NaN]. *)
Definition Math_max (l : list Number) : Number :=
  fold_left
    (λ highest x,
       match highest, x with
       | NaN, _ | _, NaN => NaN
       | _, _ => if Number_lt highest x then x else highest
       end)
    l NegInfinity.

Definition isDigitOrDot (c : ascii) : bool :=
  match Ascii.is_nat c with
  | Some _ => true
  | None => Ascii.eqb c "."
  end.

(** [k.replace(/[^0-9.]/g, '')] *)
Fixpoint stripNonNumeric (k : string) : string :=
  match k with
  | EmptyString => EmptyString
  | String c k' =>
      if isDigitOrDot c then String c (stripNonNumeric k')
      else stripNonNumeric k'
  end.

(** [k[0] === '@'] *)
Definition startsWithAt (k : string) : bool :=
  match k with
  | String c _ => Ascii.eqb c "@"
  | EmptyString => false
  end.

(** The template [`@${scale}x`]. *)
Definition scaleKey (scale : Number) : string :=
  "@" +:+ Number_toString scale +:+ "x".

(** [l.join(sep)] on strings. *)
Fixpoint Array_join (sep : string) (l : list string) : string :=
  match l with
  | [] => ""
  | [x] => x
  | x :: l' => x +:+ sep +:+ Array_join sep l'
  end.

(** [String(array)]: elements joined by commas, [null] and [undefined]
    printed as the empty string. *)
Definition Array_toString (l : list Value) : string :=
  Array_join ","
    (map (λ v, match v with
               | VUndefined | VNull => ""
               | _ => toString v
               end) l).

(** [path.replace(/([^/])$/, '$1/')]: a last character other than [/]
    gets a [/] after it. *)
Fixpoint replaceTrailing (path : string) : string :=
  match path with
  | EmptyString => EmptyString
  | String c EmptyString =>
      if Ascii.eqb c "/" then String c EmptyString
      else String c (String "/" EmptyString)
  | String c rest => String c (replaceTrailing rest)
  end.

(** [s] occurs in [t]. *)
Definition includes (t s : string) : Prop :=
  ∃ pre post, t = pre +:+ s +:+ post.

(** The serialisation of [new URLSearchParams(params).toString()]
    (application/x-www-form-urlencoded). *)
Definition isUrlSafe (c : ascii) : bool :=
  let n := N_of_ascii c in
  ((48 <=? n) && (n <=? 57) || (65 <=? n) && (n <=? 90) ||
   (97 <=? n) && (n <=? 122) ||
   (n =? 42) || (n =? 45) || (n =? 46) || (n =? 95))%N.

Definition hexDigit (n : N) : ascii :=
  ascii_of_N (if (n <? 10)%N then 48 + n else 55 + n).

Fixpoint urlencode (s : string) : string :=
  match s with
  | EmptyString => EmptyString
  | String c s' =>
      if isUrlSafe c then String c (urlencode s')
      else if Ascii.eqb c " " then String "+" (urlencode s')
      else String "%" (String (hexDigit (N_of_ascii c / 16))
             (String (hexDigit (N_of_ascii c mod 16)) (urlencode s')))
  end.

Definition URLSearchParams_toString (params : list (string * string)) : string :=
  Array_join "&" (map (λ kv, urlencode kv.1 +:+ "=" +:+ urlencode kv.2) params).

(** ** Exceptions and results *)

Inductive Exn :=
| Error (message : string)
| TypeError
| SyntaxError.

Inductive Result (A : Type) :=
| Ok (a : A)
| Throw (e : Exn).
Arguments Ok {A} a.
Arguments Throw {A} e.

Global Instance Result_ret : MRet Result := λ A a, Ok a.

Global Instance Result_bind : MBind Result := λ A B k r,
  match r with
  | Ok a => k a
  | Throw e => Throw e
  end.

(** ** Objects used as dictionaries *)

(** The names every plain object inherits from [Object.prototype]. *)
Definition prototypeMembers : list string :=
  ["constructor"; "__defineGetter__"; "__defineSetter__"; "hasOwnProperty";
   "__lookupGetter__"; "__lookupSetter__"; "isPrototypeOf";
   "propertyIsEnumerable"; "toString"; "valueOf"; "__proto__";
   "toLocaleString"].

Definition isInherited (k : string) : bool :=
  bool_decide (k ∈ prototypeMembers).

(** [o[k]], read on a plain object whose own properties are [o]: an own
    property first, then what [Object.prototype] has under [k]. *)
Definition getProperty (o : gmap string Value) (k : string) : Value :=
  match o !! k with
  | Some v => v
  | None => if isInherited k then VInherited k else VUndefined
  end.

(** [o[k] = v] for a string [v], on an object built from [{}] by such
    assignments.  [__proto__] names the accessor inherited from
    [Object.prototype], whose setter ignores a value that is neither an
    object nor [null]: no property is created.  Under any other name the
    assignment creates or replaces an own property. *)
Definition assign (k v : string) (o : gmap string string) : gmap string string :=
  if String.eqb k "__proto__" then o else <[k := v]> o.

(** ** Data model *)

Local Unset Elimination Schemes.

(** A node of the document tree; [children] is absent on leaves. *)
Inductive Node :=
  mkNode (id name type : string) (children : option (list Node)).

Local Set Elimination Schemes.

Definition id (n : Node) : string := let 'mkNode i _ _ _ := n in i.
Definition name (n : Node) : string := let 'mkNode _ m _ _ := n in m.
Definition type (n : Node) : string := let 'mkNode _ _ t _ := n in t.
Definition children (n : Node) : option (list Node) :=
  let 'mkNode _ _ _ c := n in c.

(** The properties of a parsed response body that the program reads. *)
Record Body := {
  err : Value;
  document : option Node;
  images : option (gmap string Value);
}.

(** What [response.json()] resolves to: [null], or a value whose
    properties can be read (an object; on any other value the three
    properties read as [undefined]). *)
Inductive Json :=
| JsonNull
| JsonObject (o : Body).

(** ** Document search *)

(** Nodes in depth-first, pre-order, left-to-right order. *)
Fixpoint preorder (n : Node) : list Node :=
  let 'mkNode _ _ _ c := n in
  n :: match c with
       | Some cs => concat (map preorder cs)
       | None => []
       end.

(** [nodeId === searchNode.id] *)
Definition idIs (nodeId : Value) (n : Node) : bool :=
  bool_decide (nodeId = VStr (id n)).

Fixpoint findNode (nodeId : Value) (searchNode : Node) : Ref Node :=
  let 'mkNode i _ _ c := searchNode in
  if bool_decide (nodeId = VStr i) then Obj searchNode
  else match c with
       | Some cs => Array_find Undefined BooleanRef (map (findNode nodeId) cs)
       | None => Null
       end.

(** [file.document], read where the source reads it. *)
Definition getDocument (file : Json) : Result Node :=
  match file with
  | JsonNull => Throw TypeError
  | JsonObject o =>
      match document o with
      | Some root => Ok root
      | None => Throw TypeError
      end
  end.

Definition findNodesById (file : Json) (nodeIds : list Value)
  : Result (list (Ref Node)) :=
  mapM (λ nodeId, root ← getDocument file; Ok (findNode nodeId root)) nodeIds.

(** [name === node.name && node.type === 'FRAME'] *)
Definition isFrameNamed (nm : string) (n : Node) : bool :=
  bool_decide (nm = name n) && bool_decide (type n = "FRAME").

Fixpoint findNameInNode (nm : string) (node : Node) : Value :=
  let 'mkNode i m t c := node in
  if bool_decide (nm = m) && bool_decide (t = "FRAME") then VStr i
  else match c with
       | Some cs => Array_find VUndefined Boolean (map (findNameInNode nm) cs)
       | None => VNull
       end.

Definition findNodeIdsForNames (file : Json) (names : list string)
  : Result (list Value) :=
  mapM (λ nm, root ← getDocument file; Ok (findNameInNode nm root)) names.

(** ** API client *)

Record Response := {
  status : N;
  json : Result Json;  (* what [response.json()] settles to *)
}.

(** [fetchFunc(url, { headers: { 'X-Figma-Token': token } })] *)
Record figmaApi := {
  _personalAccessToken : string;
  _fetchFunc : string → string → Result Response;
}.

(** The URL requested by [get(api, params)]. *)
Definition requestUrl (api : string)
    (params : option (list (string * string))) : string :=
  let search :=
    match params with
    | Some p => "?" +:+ URLSearchParams_toString p
    | None => ""
    end in
  "https://api.figma.com/v1/" +:+ api +:+ search.

Definition get (this : figmaApi) (api : string)
    (params : option (list (string * string))) : Result Json :=
  response ← _fetchFunc this (requestUrl api params) (_personalAccessToken this);
  if (400 <=? status response)%N then
    let extra := "" in
    let extra :=
      match json response with
      | Ok (JsonObject o) => extra +:+ toString (err o)
      | Ok JsonNull => extra   (* reading [.err] of [null] throws *)
      | Throw _ => extra       (* [response.json()] rejects *)
      end in
    (* [finally { throw ... }] replaces whatever the [try] block threw *)
    Throw (Error ("HTTP error " +:+ pretty (status response) +:+
                  " accessing Figma. " +:+ extra))
  else json response.

(** ** Image resolver *)

Definition Object_keys {V} (o : gmap string V) : list string :=
  (map_to_list o).*1.

Definition Object_values {V} (o : gmap string V) : list V :=
  (map_to_list o).*2.

Fixpoint foldlM {A B} (f : B → A → Result B) (l : list A) (b : B) : Result B :=
  match l with
  | [] => Ok b
  | a :: l' => b' ← f b a; foldlM f l' b'
  end.

Definition getImageList (api : figmaApi) (fileKey : string)
    (assetList : gmap string string) (format : string) (scale : Number)
  : Result Json :=
  get api ("images/" +:+ fileKey)
    (Some [("ids", Array_join "," (Object_values assetList));
           ("format", format);
           ("scale", Number_toString scale)]).

(** [imageList.images[nodeId]] *)
Definition getImage (imageList : Json) (nodeId : string) : Result Value :=
  match imageList with
  | JsonNull => Throw TypeError
  | JsonObject o =>
      match images o with
      | Some m => Ok (getProperty m nodeId)
      | None => Throw TypeError
      end
  end.

(** The value of [assetsWithUrls[name] || { id: nodeId }] when the record
    has no own property [name] yet, given by its own enumerable
    properties.  For a name inherited from [Object.prototype] the read
    finds the built-in function, which is truthy: that function becomes the
    entry, and it has no enumerable property of its own.  (An asset list
    has no key [__proto__], see [assign]; for that key the read would find
    the prototype itself.) *)
Definition newEntry (name nodeId : string) : gmap string Value :=
  if isInherited name then ∅ else {[ "id" := VStr nodeId ]}.

(** The body of the loop [for (const name of Object.keys(assetList))],
    for the asset [name] with identifier [nodeId]. *)
Definition putScale (scale : Number) (imageList : Json)
    (assetsWithUrls : gmap string (gmap string Value))
    (entry : string * string) : Result (gmap string (gmap string Value)) :=
  let '(name, nodeId) := entry in
  let asset := default (newEntry name nodeId) (assetsWithUrls !! name) in
  url ← getImage imageList nodeId;
  Ok (<[name := <[scaleKey scale := url]> asset]> assetsWithUrls).

(** The body of [scales.forEach((scale, scaleIndex) => ...)] for one scale
    and the response at its index. *)
Definition addScale (assetList : gmap string string) (scale : Number)
    (imageList : Json) (assetsWithUrls : gmap string (gmap string Value))
  : Result (gmap string (gmap string Value)) :=
  foldlM (putScale scale imageList) (map_to_list assetList) assetsWithUrls.

Definition getAssetImages (api : figmaApi) (fileKey : string)
    (assetList : gmap string string) (scales : list Number) (format : string)
  : Result (gmap string (gmap string Value)) :=
  imageLists ← mapM (getImageList api fileKey assetList format) scales;
  foldlM
    (λ assetsWithUrls (si : Number * Json),
       addScale assetList si.1 si.2 assetsWithUrls)
    (zip scales imageLists) ∅.

(** ** Asset list builder *)

(** [frames.filter(Boolean)] *)
Definition filterBoolean {A} (l : list (Ref A)) : list A :=
  omap toOption l.

Definition makeAssetList (frames : list (Ref Node)) : Result (gmap string string) :=
  foldlM
    (λ assetList frame,
       match children frame with
       | Some cs =>
           Ok (fold_left (λ assetList node, assign (name node) (id node) assetList)
                 cs assetList)
       | None => Throw TypeError   (* [undefined] is not iterable *)
       end)
    (filterBoolean frames) ∅.

(** ** Orchestrator *)

Definition getFigmassets (frameIds : list Value) (frameNames : list string)
    (fileKey personalAccessToken : string) (scales : list Number)
    (format : string) (fetchFunc : string → string → Result Response)
  : Result (gmap string (gmap string Value)) :=
  let api := {| _personalAccessToken := personalAccessToken;
                _fetchFunc := fetchFunc |} in
  file ← get api ("files/" +:+ fileKey) None;
  frameIds ←
    match frameNames with
    | [] => Ok frameIds
    | _ => ids ← findNodeIdsForNames file frameNames; Ok (frameIds ++ ids)
    end;
  nodes ← findNodesById file frameIds;
  let frames := filterBoolean nodes in
  match frames with
  | [] =>
      Throw (Error ("No matching frames for " +:+ Array_toString frameIds +:+
                    ", " +:+ Array_join "," frameNames))
  | _ =>
      assetList ← makeAssetList (Obj <$> frames);
      getAssetImages api fileKey assetList scales format
  end.

(** ** Map integration *)

(** A call [map.addImage(id, image, { pixelRatio })]. *)
Record AddImage (Image : Type) := {
  addImage_id : string;
  addImage_image : Image;
  pixelRatio : Number;
}.
Arguments addImage_id {Image}.
Arguments addImage_image {Image}.
Arguments pixelRatio {Image}.

(** A call [map.loadImage(url, callback)]; the callback receives the
    store's error and image and answers with the registration it makes. *)
Record LoadImage (Err Image : Type) := {
  url : Value;
  callback : Err → Image → AddImage Image;
}.
Arguments url {Err Image}.
Arguments callback {Err Image}.

(** The scale chosen for one asset of the image record. *)
Definition maxScale (asset : gmap string Value) : Number :=
  Math_max
    (map (λ k, toNumber (stripNonNumeric k))
         (filter (λ k, startsWithAt k = true) (Object_keys asset))).

(** The calls made on [map], one per asset. *)
Definition addAssetsToMap {Err Image} (assets : gmap string (gmap string Value))
  : list (LoadImage Err Image) :=
  map (λ entry : string * gmap string Value,
         let '(iconId, asset) := entry in
         let scale := maxScale asset in
         {| url := default VUndefined (asset !! scaleKey scale);
            callback := λ error image,
              {| addImage_id := iconId;
                 addImage_image := image;
                 pixelRatio := scale |} |})
      (map_to_list assets).

(** ** Static snapshot loader *)

(** A descriptor of [assets.json]. *)
Module Asset.
Record t := { id : string; fileName : string; scale : Number }.
End Asset.

(** The prefix used after the test [if (path)]. *)
Definition normalizePath (path : string) : string :=
  if String.eqb path "" then path else replaceTrailing path.

(** [fetch] is the ambient function of the page: it maps the manifest's URL
    to the decoded manifest. *)
Definition loadStoredFigmassets {Err Image}
    (fetch : string → Result (list Asset.t)) (path : string)
  : Result (list (LoadImage Err Image)) :=
  let path := normalizePath path in
  assets ← fetch (path +:+ "assets.json");
  Ok (map (λ asset,
             {| url := VStr (path +:+ Asset.fileName asset);
                callback := λ (error : Err) (image : Image),
                  {| addImage_id := Asset.id asset;
                     addImage_image := image;
                     pixelRatio := Asset.scale asset |} |})
          assets).

(** ** Examples used below *)

(** A document whose first frame named [N] carries the empty identifier. *)
Definition emptyIdText : Node := mkNode "1:1" "N" "TEXT" None.
Definition emptyIdFrame : Node := mkNode "" "N" "FRAME" (Some []).
Definition laterFrame : Node := mkNode "1:3" "N" "FRAME" (Some []).
Definition emptyIdDocument : Node :=
  mkNode "0:0" "Document" "DOCUMENT"
    (Some [emptyIdText; emptyIdFrame; laterFrame]).

(** A document in which a text layer named [Icons] precedes the frame. *)
Definition iconsText : Node := mkNode "1:1" "Icons" "TEXT" None.
Definition iconsFrame : Node := mkNode "1:2" "Icons" "FRAME" (Some []).
Definition iconsDocument : Node :=
  mkNode "0:0" "Document" "DOCUMENT"
    (Some [mkNode "0:1" "Page 1" "CANVAS" (Some [iconsText; iconsFrame])]).

Definition fileOf (root : Node) : Json :=
  JsonObject {| err := VUndefined; document := Some root; images := None |}.

(** A transport that answers every request with the given response. *)
Definition answering (response : Response) : figmaApi :=
  {| _personalAccessToken := "token";
     _fetchFunc := λ _ _, Ok response |}.

Definition forbidden : Response :=
  {| status := 403;
     json := Ok (JsonObject {| err := VStr "Invalid token"; document := None;
                               images := None |}) |}.

Definition notFoundNoDetail : Response :=
  {| status := 404;
     json := Ok (JsonObject {| err := VUndefined; document := None;
                               images := None |}) |}.

Definition badGatewayHtml : Response :=
  {| status := 502; json := Throw SyntaxError |}.

(** A refusal whose body is the JSON text [null]. *)
Definition nullBody : Response :=
  {| status := 404; json := Ok JsonNull |}.

(** A parsed body without an [err] field. *)
Definition lacksErr (body : Json) : Prop :=
  match body with
  | JsonNull => True
  | JsonObject o => err o = VUndefined
  end.

(** A manifest with one descriptor, served under the normalised prefix. *)
Definition manifestA : list Asset.t :=
  [{| Asset.id := "a"; Asset.fileName := "a.png"; Asset.scale := Dec 1 0 |}].

Definition fetchManifestA (url : string) : Result (list Asset.t) :=
  if String.eqb url "assets/assets.json" then Ok manifestA
  else Throw (Error "not found").

(** [s] ends with a [/]. *)
Definition endsWithSlash (s : string) : Prop :=
  ∃ t, s = t +:+ "/".

(** [s] ends with one [/] and not with two. *)
Definition endsWithOneSlash (s : string) : Prop :=
  ∃ t, s = t +:+ "/" ∧ ¬ endsWithSlash t.

(** Two frames that both hold a child named [icon]; the first one also
    holds a group whose own child must not become an asset. *)
Definition toolbarFrame : Node :=
  mkNode "1:1" "Toolbar" "FRAME"
    (Some [mkNode "1:2" "icon" "VECTOR" None;
           mkNode "1:3" "group" "GROUP"
             (Some [mkNode "1:4" "nested" "VECTOR" None])]).

Definition sidebarFrame : Node :=
  mkNode "2:1" "Sidebar" "FRAME"
    (Some [mkNode "2:2" "icon" "VECTOR" None]).

(** The children of [frames] named [nm], in the order of iteration. *)
Definition childrenNamed (nm : string) (css : list (list Node)) : list Node :=
  filter (λ c, name c = nm) (concat css).

(** A transport that serves [iconsDocument] as the file. *)
Definition fetchIconsDocument (url token : string) : Result Response :=
  Ok {| status := 200; json := Ok (fileOf iconsDocument) |}.

(** The image resolver's example: assets [a] and [b], scales 1 and 2; the
    response for scale 2 lacks node [2]. *)
Definition exampleAssetList : gmap string string :=
  {[ "a" := "1"; "b" := "2" ]}.

Definition imagesResponse (m : gmap string Value) : Response :=
  {| status := 200;
     json := Ok (JsonObject {| err := VUndefined; document := None;
                               images := Some m |}) |}.

Definition exampleImages (scale : Number) : gmap string Value :=
  if decide (scale = Dec 1 0)
  then {[ "1" := VStr "urlA1"; "2" := VStr "urlB1" ]}
  else {[ "1" := VStr "urlA2" ]}.

Definition fetchExampleImages (url token : string) : Result Response :=
  if String.eqb url
       "https://api.figma.com/v1/images/KEY?ids=1%2C2&format=png&scale=1"
  then Ok (imagesResponse (exampleImages (Dec 1 0)))
  else if String.eqb url
       "https://api.figma.com/v1/images/KEY?ids=1%2C2&format=png&scale=2"
  then Ok (imagesResponse (exampleImages (Dec 2 0)))
  else Throw TypeError.

Definition exampleApi : figmaApi :=
  {| _personalAccessToken := "token"; _fetchFunc := fetchExampleImages |}.

Definition exampleRecord : gmap string (gmap string Value) :=
  {[ "a" := {[ "id" := VStr "1"; "@1x" := VStr "urlA1";
               "@2x" := VStr "urlA2" ]};
     "b" := {[ "id" := VStr "2"; "@1x" := VStr "urlB1";
               "@2x" := VUndefined ]} ]}.

(** The entry of the asset [nodeId] once the scales have been merged, when
    [images_of scale] is the [images] table of the response for [scale]. *)
Definition assetEntry (images_of : Number → gmap string Value)
    (scales : list Number) (name nodeId : string) : gmap string Value :=
  fold_left
    (λ asset scale,
       <[scaleKey scale := getProperty (images_of scale) nodeId]> asset)
    scales (newEntry name nodeId).

(** Finite numbers. *)
Definition isDec (x : Number) : Prop :=
  match x with Dec _ _ => True | _ => False end.

(** Finite numbers that are printed without an exponent and read back as
    the same number: at least [1e-6], less than [1e21], and of at most 15
    significant digits. *)
Definition plain (x : Number) : Prop :=
  match x with
  | Dec m e =>
      let '(m', e') := normalize m e in
      usesExponent m' e' = false ∧
      (dropZeros (String.length (pretty m')) m' < 10 ^ 15)%N
  | _ => False
  end.

(** A string of decimal digits. *)
Fixpoint allDigits (s : string) : bool :=
  match s with
  | EmptyString => true
  | String c s' => bool_decide (is_Some (Ascii.is_nat c)) && allDigits s'
  end.

(** The same number with the fraction in lowest terms: what [Dec m e]
    reads back as after it has been printed. *)
Definition canonical (n : Number) : Number :=
  match n with
  | Dec m e => let '(m', e') := normalize m e in Dec m' e'
  | _ => n
  end.

(** A frame with a child named [__proto__] and a child named [icon]. *)
Definition protoFrame : Node :=
  mkNode "1:1" "Icons" "FRAME"
    (Some [mkNode "1:2" "__proto__" "VECTOR" None;
           mkNode "1:3" "icon" "VECTOR" None]).

(** An entry the specification calls present: a scale-tagged key under
    which a URL is stored; [undefined] marks a rendering that is
    missing. *)
Definition presentEntry (asset : gmap string Value) (k : string) : Prop :=
  startsWithAt k = true ∧ ∃ v, asset !! k = Some v ∧ v ≠ VUndefined.

(** The entry of asset [b] in [exampleRecord]: no rendering at scale 2. *)
Definition missingAt2 : gmap string Value :=
  {[ "id" := VStr "2"; "@1x" := VStr "urlB1"; "@2x" := VUndefined ]}.

(** An image record with one asset, at scales 1 and 3. *)
Definition pinAsset : gmap string Value :=
  {[ "id" := VStr "5:1"; "@1x" := VStr "pin1.png"; "@3x" := VStr "pin3.png" ]}.

Definition pinAssets : gmap string (gmap string Value) :=
  {[ "pin" := pinAsset ]}.

(** ** Map loader *)

(** The argument object handed to [getFigmassets]: a property the caller
    leaves out is [None].  [fetchFunc] defaults to the page's [fetch] in
    the source; here the caller always supplies it. *)
Module Args.
Record t := {
  frameIds : option (list Value);
  frameNames : option (list string);
  fileKey : string;
  personalAccessToken : string;
  scales : option (list Number);
  format : option string;
  fetchFunc : string → string → Result Response;
}.
End Args.

(** [getFigmassets(args)]: the parameter pattern of [getFigmassets] fills
    in [frameIds = []], [frameNames = []], [scales = [1]] and
    [format = 'png']. *)
Definition getFigmassetsOf (args : Args.t)
  : Result (gmap string (gmap string Value)) :=
  getFigmassets (default [] (Args.frameIds args))
    (default [] (Args.frameNames args))
    (Args.fileKey args) (Args.personalAccessToken args)
    (default [Dec 1 0] (Args.scales args))
    (default "png" (Args.format args))
    (Args.fetchFunc args).

(** [loadFigmassets({ map, ...otherArgs })]; [map] tells whether a map was
    passed.  The result is the record together with the calls made on the
    map. *)
Definition loadFigmassets {Err Image} (map : bool) (otherArgs : Args.t)
  : Result (gmap string (gmap string Value) * list (LoadImage Err Image)) :=
  let otherArgs :=
    if map && negb (bool_decide (is_Some (Args.scales otherArgs)))
    then {| Args.frameIds := Args.frameIds otherArgs;
            Args.frameNames := Args.frameNames otherArgs;
            Args.fileKey := Args.fileKey otherArgs;
            Args.personalAccessToken := Args.personalAccessToken otherArgs;
            Args.scales := Some [Dec 2 0];
            Args.format := Args.format otherArgs;
            Args.fetchFunc := Args.fetchFunc otherArgs |}
    else otherArgs in
  assets ← getFigmassetsOf otherArgs;
  Ok (assets, if map then addAssetsToMap assets else []).

(** ** The frames the orchestrator keeps, and further examples *)

(** The identifiers looked up by [getFigmassets]: the requested ones, then
    what the requested names resolve to. *)
Definition requestedIds (root : Node) (frameIds : list Value)
    (frameNames : list string) : list Value :=
  match frameNames with
  | [] => frameIds
  | _ => frameIds ++ ((λ nm, findNameInNode nm root) <$> frameNames)
  end.

(** The frames [getFigmassets] keeps. *)
Definition matchedFrames (root : Node) (frameIds : list Value)
    (frameNames : list string) : list Node :=
  filterBoolean ((λ nodeId, findNode nodeId root)
                   <$> requestedIds root frameIds frameNames).

(** The asset list of the immediate children [cs]. *)
Definition assetListOf (cs : list Node) : gmap string string :=
  fold_left (λ assetList node, assign (name node) (id node) assetList) cs ∅.

(** A document with the two example frames on one page, and a transport
    that serves it and answers every image request with one table. *)
Definition toolbarDocument : Node :=
  mkNode "0:0" "Document" "DOCUMENT"
    (Some [mkNode "0:1" "Page 1" "CANVAS" (Some [toolbarFrame; sidebarFrame])]).

(** The table of images of that transport. *)
Definition toolbarImages : gmap string Value :=
  {[ "1:2" := VStr "icon-toolbar.png"; "1:3" := VStr "group.png";
     "2:2" := VStr "icon-sidebar.png" ]}.

(** The transport: the file under [KEY], the table for anything else. *)
Definition fetchToolbar (url token : string) : Result Response :=
  if String.eqb url "https://api.figma.com/v1/files/KEY"
  then Ok {| status := 200; json := Ok (fileOf toolbarDocument) |}
  else Ok (imagesResponse toolbarImages).

(** A transport that refuses the image request at scale 2. *)
Definition fetchScale2Forbidden (url token : string) : Result Response :=
  if String.eqb url
       "https://api.figma.com/v1/images/KEY?ids=1%2C2&format=png&scale=2"
  then Ok forbidden
  else Ok (imagesResponse (exampleImages (Dec 1 0))).

(** What the record holds for the asset [name] after the scales
    [merged]: nothing before the first scale, then an entry whose keys are
    the keys of the scales and, unless [name] is inherited from
    [Object.prototype], [id]. *)
Definition entryAfter (name : string) (merged : list Number)
    (entry : option (gmap string Value)) : Prop :=
  match merged with
  | [] => entry = None
  | _ => ∃ asset, entry = Some asset ∧
           dom asset =
             (if isInherited name then ∅ else {["id"]}) ∪
             list_to_set (scaleKey <$> merged)
  end.

(** A record whose one asset has no address at any scale. *)
Definition untaggedAssets : gmap string (gmap string Value) :=
  {[ "pin" := {[ "id" := VStr "5:1" ]} ]}.


(** Arguments of [loadFigmassets] with the empty list of scales. *)
Definition emptyScalesArgs : Args.t :=
  {| Args.frameIds := Some [VStr "1:1"]; Args.frameNames := None;
     Args.fileKey := "KEY"; Args.personalAccessToken := "token";
     Args.scales := Some []; Args.format := None;
     Args.fetchFunc := fetchToolbar |}.

(** * Properties *)

(** ** Document search *)

Lemma Node_ind (P : Node → Prop) :
  (∀ i m t, P (mkNode i m t None)) →
  (∀ i m t cs, Forall P cs → P (mkNode i m t (Some cs))) →
  ∀ n, P n.
Proof.
  intros Hleaf Hinner.
  fix IH 1. intros [i m t [cs|]]; [|apply Hleaf].
  apply Hinner. induction cs as [|c cs IHcs]; constructor; [apply IH|apply IHcs].
Qed.

Lemma find_app_list {A} (p : A → bool) (l1 l2 : list A) :
  List.find p (l1 ++ l2) =
  match List.find p l1 with Some x => Some x | None => List.find p l2 end.
Proof. induction l1 as [|x l1 IH]; simpl; [done|]. by destruct (p x). Qed.

Lemma mapM_Ok {A B} (f : A → B) (l : list A) :
  mapM (λ x, Ok (f x)) l = Ok (f <$> l).
Proof. induction l as [|x l IH]; simpl; [done|]. by rewrite IH. Qed.

Lemma findNode_preorder nodeId n :
  toOption (findNode nodeId n) = List.find (idIs nodeId) (preorder n).
Proof.
  induction n as [i m t|i m t cs IH] using Node_ind; simpl;
    unfold idIs at 1; simpl; case_bool_decide; try done.
  unfold Array_find.
  induction IH as [|c cs Hc _ IHcs]; simpl; [done|].
  rewrite find_app_list, <- Hc.
  destruct (findNode nodeId c); simpl; done.
Qed.

(** C8: [findNodesById] answers with one result per requested identifier,
    in input order; the result at a position is the first node, in
    depth-first pre-order from the root, whose identifier is the requested
    one, and is absent when the tree has no such node. *)
Theorem findNodesById_spec (o : Body) (root : Node) (nodeIds : list Value) :
  document o = Some root →
  ∃ nodes,
    findNodesById (JsonObject o) nodeIds = Ok nodes ∧
    length nodes = length nodeIds ∧
    ∀ i nodeId, nodeIds !! i = Some nodeId →
      ∃ r, nodes !! i = Some r ∧
           toOption r = List.find (idIs nodeId) (preorder root).
Proof.
  intros Hdoc. exists ((λ nodeId, findNode nodeId root) <$> nodeIds).
  split; [|split].
  - unfold findNodesById, getDocument. rewrite Hdoc. apply mapM_Ok.
  - by rewrite length_fmap.
  - intros i nodeId Hi. eexists. split.
    + rewrite list_lookup_fmap, Hi. done.
    + apply findNode_preorder.
Qed.

Lemma findNodesById_spec_witness :
  findNodesById (fileOf iconsDocument) [VStr "1:2"; VStr "9:9"]
    = Ok [Obj iconsFrame; Undefined] ∧
  ∃ nodes,
    findNodesById (fileOf iconsDocument) [VStr "1:2"; VStr "9:9"] = Ok nodes ∧
    length nodes = 2 ∧
    ∀ i nodeId, [VStr "1:2"; VStr "9:9"] !! i = Some nodeId →
      ∃ r, nodes !! i = Some r ∧
           toOption r = List.find (idIs nodeId) (preorder iconsDocument).
Proof.
  split; [reflexivity|].
  apply (findNodesById_spec _ iconsDocument). reflexivity.
Defined.

Lemma Boolean_VStr s : s ≠ "" → Boolean (VStr s) = true.
Proof.
  intros Hs. simpl. destruct (String.eqb_spec s ""); [done|reflexivity].
Qed.

(** The search by name against the pre-order listing: nothing truthy comes
    back from a tree without a frame of that name, and the first such
    frame is found provided its identifier is truthy. *)
Lemma findNameInNode_preorder nm n :
  (List.find (isFrameNamed nm) (preorder n) = None →
   Boolean (findNameInNode nm n) = false) ∧
  (∀ f, List.find (isFrameNamed nm) (preorder n) = Some f → id f ≠ "" →
        findNameInNode nm n = VStr (id f)).
Proof.
  induction n as [i m t|i m t cs IH] using Node_ind; simpl;
    change (isFrameNamed nm (mkNode i m t _))
      with (bool_decide (nm = m) && bool_decide (t = "FRAME"));
    destruct (bool_decide (nm = m) && bool_decide (t = "FRAME")) eqn:Hhere.
  - split; [done|]. by intros f [= <-].
  - split; [done|]. by intros f [=].
  - split; [done|]. by intros f [= <-].
  - unfold Array_find.
    induction IH as [|c cs [Hnone Hsome] _ [IHnone IHsome]]; simpl; [done|].
    rewrite find_app_list.
    destruct (List.find (isFrameNamed nm) (preorder c)) as [g|].
    + split; [done|]. intros f [= <-] Hid.
      rewrite (Hsome g eq_refl Hid), Boolean_VStr by done. done.
    + rewrite Hnone by done. done.
Qed.

(** C2, at the failing input: in [emptyIdDocument] a text node named [N]
    precedes two frames named [N], and the first of them has the empty
    identifier.  The search by name answers with the identifier of the
    second frame.  The same frame is found when it is the root of the
    search, and the search by identifier finds it under its empty
    identifier: only [find(Boolean)] over the results of the children
    passes it over. *)
Theorem findNodeIdsForNames_empty_id :
  findNodeIdsForNames (fileOf emptyIdDocument) ["N"] = Ok [VStr "1:3"] ∧
  findNodeIdsForNames (fileOf emptyIdFrame) ["N"] = Ok [VStr ""] ∧
  findNodesById (fileOf emptyIdDocument) [VStr ""] = Ok [Obj emptyIdFrame].
Proof. repeat split. Qed.

(** X25: when a node named [nm] of another type precedes, in pre-order,
    the first node named [nm] of type FRAME, the search by name answers
    with the identifier of that frame, provided the identifier is not the
    empty string. *)
Theorem findNodeIdsForNames_skips_wrong_type
    (o : Body) (root : Node) (nm : string)
    (before between after : list Node) (wrong frame : Node) :
  document o = Some root →
  preorder root = before ++ wrong :: between ++ frame :: after →
  name wrong = nm →
  type wrong ≠ "FRAME" →
  isFrameNamed nm frame = true →
  List.find (isFrameNamed nm) (before ++ wrong :: between) = None →
  id frame ≠ "" →
  findNodeIdsForNames (JsonObject o) [nm] = Ok [VStr (id frame)].
Proof.
  intros Hdoc Hpre _ _ Hframe Hfirst Hid.
  unfold findNodeIdsForNames, getDocument. rewrite Hdoc. simpl.
  do 2 f_equal.
  apply findNameInNode_preorder; [|done].
  rewrite Hpre.
  change (before ++ wrong :: between ++ frame :: after)
    with (before ++ (wrong :: between) ++ frame :: after).
  rewrite (assoc_L (++)), find_app_list, Hfirst. simpl. by rewrite Hframe.
Qed.

Lemma findNodeIdsForNames_skips_wrong_type_witness :
  findNodeIdsForNames (fileOf iconsDocument) ["Icons"] = Ok [VStr "1:2"].
Proof.
  apply (findNodeIdsForNames_skips_wrong_type _ iconsDocument "Icons"
           [iconsDocument; mkNode "0:1" "Page 1" "CANVAS" (Some [iconsText; iconsFrame])]
           [] [] iconsText iconsFrame);
    [reflexivity|reflexivity|reflexivity|discriminate|reflexivity|reflexivity|
     discriminate].
Defined.

(** C2 as stated fails: in [emptyIdDocument] the first frame named [N] has
    the empty identifier, which [find(Boolean)] passes over, and the
    identifier of the next frame comes back. *)
Lemma findNodeIdsForNames_empty_id_counterexample :
  ¬ (∀ (o : Body) (root : Node) (nm : string)
       (before between after : list Node) (wrong frame : Node),
       document o = Some root →
       preorder root = before ++ wrong :: between ++ frame :: after →
       name wrong = nm →
       type wrong ≠ "FRAME" →
       isFrameNamed nm frame = true →
       List.find (isFrameNamed nm) (before ++ wrong :: between) = None →
       findNodeIdsForNames (JsonObject o) [nm] = Ok [VStr (id frame)]).
Proof.
  intros H.
  specialize (H {| err := VUndefined; document := Some emptyIdDocument;
                   images := None |}
                emptyIdDocument "N" [emptyIdDocument] [] [laterFrame]
                emptyIdText emptyIdFrame
                eq_refl eq_refl eq_refl).
  discriminate H; [discriminate|reflexivity|reflexivity].
Qed.

(** ** API client *)

Lemma includes_middle (pre s post : string) : includes (pre +:+ s +:+ post) s.
Proof. by exists pre, post. Qed.

(** What [get] does with a response whose status is at least 400. *)
Lemma get_error_status api endpoint params response :
  _fetchFunc api (requestUrl endpoint params) (_personalAccessToken api)
    = Ok response →
  (400 ≤ status response)%N →
  get api endpoint params =
    Throw (Error ("HTTP error " +:+ pretty (status response) +:+
                  " accessing Figma. " +:+
                  match json response with
                  | Ok (JsonObject o) => toString (err o)
                  | _ => ""
                  end)).
Proof.
  intros Hfetch Hstatus. unfold get. rewrite Hfetch. simpl.
  destruct (N.leb_spec 400 (status response)) as [_|?]; [|lia].
  by destruct (json response) as [[|o]|e].
Qed.

(** C3: a response with status at least 400 makes [get] fail with an error
    whose message includes the status code, whatever happens while the
    detail is read from the body: the body has an [err] field (the detail
    is appended), the body has none, reading it throws, or the body does
    not parse (the message then carries no detail). *)
Theorem get_raises_http_error api endpoint params response :
  _fetchFunc api (requestUrl endpoint params) (_personalAccessToken api)
    = Ok response →
  (400 ≤ status response)%N →
  ∃ message,
    get api endpoint params = Throw (Error message) ∧
    includes message (pretty (status response)) ∧
    (∀ o, json response = Ok (JsonObject o) →
          message = "HTTP error " +:+ pretty (status response) +:+
                    " accessing Figma. " +:+ toString (err o)) ∧
    (json response = Ok JsonNull →
          message = "HTTP error " +:+ pretty (status response) +:+
                    " accessing Figma. ") ∧
    (∀ e, json response = Throw e →
          message = "HTTP error " +:+ pretty (status response) +:+
                    " accessing Figma. ").
Proof.
  intros Hfetch Hstatus. eexists. split; [by apply get_error_status|].
  split; [apply includes_middle|].
  repeat split; [intros o Ho|intros Ho|intros e Ho]; by rewrite Ho.
Qed.

Lemma get_raises_http_error_witness :
  ∃ message,
    get (answering forbidden) "files/KEY" None = Throw (Error message) ∧
    includes message "403" ∧
    message = "HTTP error 403 accessing Figma. Invalid token".
Proof.
  destruct (get_raises_http_error (answering forbidden) "files/KEY" None
              forbidden eq_refl) as (message & Hget & Hincl & Hobj & _).
  { vm_compute. discriminate. }
  exists message. split; [done|]. split; [done|]. exact (Hobj _ eq_refl).
Defined.

(** The first character of a text that occurs in a string occurs in the
    string. *)
Lemma includes_first_char (t : string) (c : ascii) (s : string) :
  includes t (String c s) → In c (String.list_ascii_of_string t).
Proof.
  intros (pre & post & ->).
  induction pre as [|x pre IH]; simpl; [by left|by right].
Qed.

(** C10 as stated fails: a body that parses to [null] has no [err] field,
    and the message ends with an empty detail; the text [undefined] does
    not occur in it. *)
Lemma get_null_body_counterexample :
  ¬ (∀ (api : figmaApi) (endpoint : string)
       (params : option (list (string * string)))
       (response : Response) (body : Json),
       _fetchFunc api (requestUrl endpoint params) (_personalAccessToken api)
         = Ok response →
       (400 ≤ status response)%N →
       json response = Ok body →
       lacksErr body →
       ∃ message, get api endpoint params = Throw (Error message) ∧
                  includes message "undefined").
Proof.
  intros H.
  destruct (H (answering nullBody) "files/KEY" None nullBody JsonNull)
    as (message & Hget & Hincludes); [done|by vm_compute|done|done|].
  assert (message = "HTTP error 404 accessing Figma. ") as ->.
  { vm_compute in Hget. by injection Hget as <-. }
  apply includes_first_char in Hincludes. simpl in Hincludes.
  intuition discriminate.
Qed.

(** C10 (amended): on a status of at least 400, a body that parses to a
    value other than [null] and has no [err] field puts the text
    [undefined] after the status code in the message; a body that parses
    to [null], and a body whose parsing throws, leave the detail empty. *)
Theorem get_error_detail api endpoint params response :
  _fetchFunc api (requestUrl endpoint params) (_personalAccessToken api)
    = Ok response →
  (400 ≤ status response)%N →
  (∀ o, json response = Ok (JsonObject o) → err o = VUndefined →
        get api endpoint params =
          Throw (Error ("HTTP error " +:+ pretty (status response) +:+
                        " accessing Figma. " +:+ "undefined"))) ∧
  (json response = Ok JsonNull →
   get api endpoint params =
     Throw (Error ("HTTP error " +:+ pretty (status response) +:+
                   " accessing Figma. " +:+ ""))) ∧
  (∀ e, json response = Throw e →
        get api endpoint params =
          Throw (Error ("HTTP error " +:+ pretty (status response) +:+
                        " accessing Figma. " +:+ ""))).
Proof.
  intros Hfetch Hstatus.
  rewrite (get_error_status _ _ _ _ Hfetch Hstatus).
  split; [intros o -> ->|split; [intros ->|intros e ->]]; done.
Qed.

Lemma get_error_detail_witness :
  get (answering notFoundNoDetail) "files/KEY" None =
    Throw (Error "HTTP error 404 accessing Figma. undefined") ∧
  get (answering nullBody) "files/KEY" None =
    Throw (Error "HTTP error 404 accessing Figma. ") ∧
  get (answering badGatewayHtml) "files/KEY" None =
    Throw (Error "HTTP error 502 accessing Figma. ").
Proof.
  split; [|split].
  - refine (proj1 (get_error_detail (answering notFoundNoDetail) "files/KEY"
                     None notFoundNoDetail eq_refl _) _ eq_refl eq_refl).
    vm_compute. discriminate.
  - refine (proj1 (proj2 (get_error_detail (answering nullBody) "files/KEY"
                            None nullBody eq_refl _)) eq_refl).
    vm_compute. discriminate.
  - refine (proj2 (proj2 (get_error_detail (answering badGatewayHtml)
                            "files/KEY" None badGatewayHtml eq_refl _))
              _ eq_refl).
    vm_compute. discriminate.
Defined.

(** ** Strings *)

Lemma string_app_cons (x : ascii) (a b : string) :
  String x a +:+ b = String x (a +:+ b).
Proof. reflexivity. Qed.

Lemma string_app_nil_l (a : string) : "" +:+ a = a.
Proof. reflexivity. Qed.

Ltac str_simpl := rewrite ?string_app_cons, ?string_app_nil_l in *.

Lemma string_app_assoc (a b c : string) : (a +:+ b) +:+ c = a +:+ b +:+ c.
Proof. induction a as [|x a IH]; str_simpl; [done|]. by rewrite IH. Qed.

Lemma string_app_nil_r (a : string) : a +:+ "" = a.
Proof. induction a as [|x a IH]; str_simpl; [done|]. by rewrite IH. Qed.

Lemma string_app_length (a b : string) :
  String.length (a +:+ b) = String.length a + String.length b.
Proof. induction a as [|x a IH]; str_simpl; simpl; [done|]. by rewrite IH. Qed.

Lemma string_app_inj_r (a b c : string) : a +:+ c = b +:+ c → a = b.
Proof.
  intros H.
  assert (Hlen : String.length a = String.length b).
  { apply (f_equal String.length) in H. rewrite !string_app_length in H. lia. }
  revert b H Hlen. induction a as [|x a IH]; intros [|y b] H Hlen;
    str_simpl; simplify_eq/=; [done|]. f_equal. by apply IH.
Qed.

(** ** Static snapshot loader *)

Lemma replaceTrailing_spec (path : string) :
  path ≠ "" →
  (endsWithSlash path ∧ replaceTrailing path = path) ∨
  (¬ endsWithSlash path ∧ replaceTrailing path = path +:+ "/").
Proof.
  induction path as [|c path IH]; [done|]. intros _.
  destruct path as [|d path].
  - simpl. destruct (Ascii.eqb_spec c "/") as [->|Hc].
    + left. split; [by exists ""|done].
    + right. split; [|done].
      intros [[|x [|y t]] Ht]; str_simpl; simplify_eq/=.
  - destruct IH as [[[t Ht] IH]|[Hno IH]]; [done|..].
    + left. split; [exists (String c t); str_simpl; by rewrite <- Ht|].
      change (String c (replaceTrailing (String d path)) = String c (String d path)).
      by rewrite IH.
    + right. split.
      * intros [[|x t] Ht]; str_simpl; simplify_eq/=. apply Hno. by exists t.
      * change (String c (replaceTrailing (String d path))
                = String c (String d path +:+ "/")).
        by rewrite IH.
Qed.

(** C5 (amended): a non-empty base path is used with a [/] at its end: one
    is appended when the path does not end with [/], and a path that ends
    with [/] is used as it is (several trailing separators are kept); the
    empty path stays empty.  Every descriptor of the manifest is loaded
    from the prefix followed by its file name and registered under its
    identifier with its scale; with path [assets] and the descriptor
    [{id: "a", fileName: "a.png", scale: 1}] the load targets
    [assets/a.png] and registers [a] with ratio 1. *)
Theorem loadStoredFigmassets_prefix {Err Image}
    (fetch : string → Result (list Asset.t)) (path : string)
    (assets : list Asset.t) :
  fetch (normalizePath path +:+ "assets.json") = Ok assets →
  (path = "" → normalizePath path = "") ∧
  (path ≠ "" → endsWithSlash (normalizePath path)) ∧
  (path ≠ "" → endsWithSlash path → normalizePath path = path) ∧
  (path ≠ "" → ¬ endsWithSlash path → normalizePath path = path +:+ "/") ∧
  (∃ calls : list (LoadImage Err Image),
     loadStoredFigmassets fetch path = Ok calls ∧
     length calls = length assets ∧
     ∀ i asset, assets !! i = Some asset →
       ∃ call, calls !! i = Some call ∧
         url call = VStr (normalizePath path +:+ Asset.fileName asset) ∧
         ∀ error image,
           callback call error image =
             {| addImage_id := Asset.id asset;
                addImage_image := image;
                pixelRatio := Asset.scale asset |}) ∧
  (path = "assets" →
   assets = [{| Asset.id := "a"; Asset.fileName := "a.png";
                Asset.scale := Dec 1 0 |}] →
   ∃ call : LoadImage Err Image,
     loadStoredFigmassets fetch path = Ok [call] ∧
     url call = VStr "assets/a.png" ∧
     ∀ error image,
       callback call error image =
         {| addImage_id := "a"; addImage_image := image;
            pixelRatio := Dec 1 0 |}).
Proof.
  intros Hfetch.
  assert (Hnorm : path ≠ "" → normalizePath path = replaceTrailing path).
  { intros Hne. unfold normalizePath.
    by destruct (String.eqb_spec path ""). }
  split; [by intros ->|].
  split.
  { intros Hne. rewrite (Hnorm Hne).
    destruct (replaceTrailing_spec path Hne) as [[Hs ->]|[_ ->]]; [done|].
    by exists path. }
  split.
  { intros Hne Hs. rewrite (Hnorm Hne).
    by destruct (replaceTrailing_spec path Hne) as [[_ ->]|[Hno _]]. }
  split.
  { intros Hne Hs. rewrite (Hnorm Hne).
    by destruct (replaceTrailing_spec path Hne) as [[? _]|[_ ->]]. }
  split.
  - unfold loadStoredFigmassets. rewrite Hfetch. simpl.
    eexists. split; [done|]. split; [by rewrite length_map|].
    intros i asset Hi. eexists. split.
    + change (map ?f assets) with (f <$> assets).
      rewrite list_lookup_fmap, Hi. done.
    + done.
  - intros -> ->. unfold loadStoredFigmassets. rewrite Hfetch. simpl.
    eexists. split; [done|]. done.
Qed.

Lemma loadStoredFigmassets_prefix_witness :
  ∃ call : LoadImage unit unit,
    loadStoredFigmassets fetchManifestA "assets" = Ok [call] ∧
    url call = VStr "assets/a.png" ∧
    ∀ error image,
      callback call error image =
        {| addImage_id := "a"; addImage_image := image;
           pixelRatio := Dec 1 0 |}.
Proof.
  exact (proj2 (proj2 (proj2 (proj2 (proj2
           (loadStoredFigmassets_prefix (Err:=unit) (Image:=unit)
              fetchManifestA "assets" manifestA eq_refl)))))
           eq_refl eq_refl).
Defined.

(** C5 as stated fails: a path that already ends with two separators keeps
    both, so the prefix does not end in exactly one [/]. *)
Lemma normalizePath_two_slashes_counterexample :
  ¬ (∀ path, path ≠ "" → endsWithOneSlash (normalizePath path)).
Proof.
  intros H. destruct (H "assets//") as (t & Ht & Hno); [done|].
  apply Hno. exists "assets".
  apply (string_app_inj_r _ _ "/"). by rewrite <- Ht.
Qed.

(** ** Asset list builder *)

(** Reading a key after a run of insertions: the last insertion under
    that key decides. *)
Lemma fold_left_insert_lookup {A V} (key : A → string) (val : A → V)
    (l : list A) (m : gmap string V) (k : string) :
  fold_left (λ m x, <[key x := val x]> m) l m !! k =
  match last (filter (λ x, key x = k) l) with
  | Some x => Some (val x)
  | None => m !! k
  end.
Proof.
  revert m. induction l as [|x l IH]; intros m; [done|].
  simpl. rewrite IH, filter_cons. case_decide as Hx.
  - rewrite last_cons. destruct (last _); [done|].
    by rewrite <- Hx, lookup_insert_eq.
  - destruct (last _); [done|]. by rewrite lookup_insert_ne.
Qed.

Lemma last_filter_is_Some {A} (P : A → Prop) `{∀ x, Decision (P x)}
    (l : list A) (x : A) :
  x ∈ l → P x → ∃ y, last (filter P l) = Some y ∧ y ∈ l ∧ P y.
Proof.
  intros Hin HP.
  destruct (last (filter P l)) as [y|] eqn:Hlast.
  - exists y. split; [done|].
    apply last_Some_elem_of, list_elem_of_filter in Hlast as [? ?]. done.
  - apply last_None in Hlast.
    assert (Hx : x ∈ filter P l) by by apply list_elem_of_filter.
    rewrite Hlast in Hx. by apply elem_of_nil in Hx.
Qed.

(** Reading a name after a run of assignments: [__proto__] is never
    created, and under any other name the last assignment decides. *)
Lemma fold_left_assign_lookup (l : list Node) (m : gmap string string)
    (k : string) :
  fold_left (λ m x, assign (name x) (id x) m) l m !! k =
  if decide (k = "__proto__") then m !! k
  else match last (filter (λ x, name x = k) l) with
       | Some x => Some (id x)
       | None => m !! k
       end.
Proof.
  revert m. induction l as [|x l IH]; intros m; [by case_decide|].
  simpl. rewrite IH, filter_cons. unfold assign.
  case_decide as Hk; [subst k|].
  - destruct (String.eqb_spec (name x) "__proto__") as [Hx|Hx]; [done|].
    by rewrite lookup_insert_ne.
  - case_decide as Hx.
    + rewrite last_cons. destruct (last _); [done|].
      destruct (String.eqb_spec (name x) "__proto__") as [Hp|Hp]; [congruence|].
      by rewrite <- Hx, lookup_insert_eq.
    + destruct (last _); [done|].
      destruct (String.eqb_spec (name x) "__proto__"); [done|].
      by rewrite lookup_insert_ne.
Qed.

Lemma makeAssetList_fold (frames : list Node) (css : list (list Node))
    (assetList : gmap string string) :
  children <$> frames = Some <$> css →
  foldlM
    (λ assetList frame,
       match children frame with
       | Some cs =>
           Ok (fold_left (λ assetList node, assign (name node) (id node) assetList)
                 cs assetList)
       | None => Throw TypeError
       end) frames assetList =
  Ok (fold_left (λ assetList node, assign (name node) (id node) assetList)
        (concat css) assetList).
Proof.
  revert css assetList.
  induction frames as [|f frames IH]; intros [|cs css] assetList Hc;
    simplify_eq/=; [done|].
  rewrite H. simpl. rewrite (IH css) by done. by rewrite fold_left_app.
Qed.

(** An asset list never has an own property [__proto__]. *)
Lemma makeAssetList_no_proto (frames : list (Ref Node))
    (assetList : gmap string string) :
  makeAssetList frames = Ok assetList → assetList !! "__proto__" = None.
Proof.
  unfold makeAssetList.
  assert (Hgen : ∀ (l : list Node) (m : gmap string string),
            m !! "__proto__" = None →
            foldlM
              (λ assetList frame,
                 match children frame with
                 | Some cs =>
                     Ok (fold_left
                           (λ assetList node,
                              assign (name node) (id node) assetList)
                           cs assetList)
                 | None => Throw TypeError
                 end) l m = Ok assetList →
            assetList !! "__proto__" = None).
  { induction l as [|f l IH]; intros m Hm; simpl; [by intros [= <-]|].
    destruct (children f) as [cs|]; simpl; [|done].
    apply IH. by rewrite fold_left_assign_lookup. }
  by apply Hgen.
Qed.

(** C7, at the failing input: a child named [__proto__] gets no entry in
    the asset list; the assignment reaches the setter inherited from
    [Object.prototype], which ignores a string. *)
Theorem makeAssetList_drops_proto :
  makeAssetList [Obj protoFrame] = Ok {[ "icon" := "1:3" ]}.
Proof. reflexivity. Qed.

(** C7 as stated fails: not every immediate child gets an entry under its
    name. *)
Lemma makeAssetList_proto_counterexample :
  ¬ (∀ (frames : list (Ref Node)) (css : list (list Node))
       (assetList : gmap string string),
       children <$> filterBoolean frames = Some <$> css →
       makeAssetList frames = Ok assetList →
       ∀ c, c ∈ concat css → assetList !! name c = id <$> last (childrenNamed (name c) css)).
Proof.
  intros H.
  specialize (H [Obj protoFrame]
                [[mkNode "1:2" "__proto__" "VECTOR" None;
                  mkNode "1:3" "icon" "VECTOR" None]]
                {[ "icon" := "1:3" ]} eq_refl eq_refl
                (mkNode "1:2" "__proto__" "VECTOR" None)).
  discriminate H. by left.
Qed.

(** X22: [makeAssetList] goes through the frames in order and through the
    immediate children of each frame in order; under every name other
    than [__proto__] the asset list holds the identifier of the last child
    of that name met on the way, it holds no name other than those of
    immediate children, and it never holds [__proto__].  With two frames
    that each have a child named [icon], [icon] is mapped to an identifier
    from the later frame. *)
Theorem makeAssetList_last_wins (frames : list (Ref Node))
    (css : list (list Node)) :
  children <$> filterBoolean frames = Some <$> css →
  ∃ assetList,
    makeAssetList frames = Ok assetList ∧
    (∀ nm, nm ≠ "__proto__" →
           assetList !! nm = id <$> last (childrenNamed nm css)) ∧
    assetList !! "__proto__" = None ∧
    (∀ nm, is_Some (assetList !! nm) ↔
           nm ≠ "__proto__" ∧ ∃ c, c ∈ concat css ∧ name c = nm) ∧
    (∀ f1 f2 cs1 cs2 c1 c2,
       frames = [Obj f1; Obj f2] → css = [cs1; cs2] →
       c1 ∈ cs1 → c2 ∈ cs2 →
       name c1 = "icon" → name c2 = "icon" → id c1 ≠ id c2 →
       ∃ c, c ∈ cs2 ∧ name c = "icon" ∧ assetList !! "icon" = Some (id c)).
Proof.
  intros Hc. eexists. split; [by apply makeAssetList_fold|].
  assert (Hlookup : ∀ nm, nm ≠ "__proto__" →
    fold_left (λ assetList node, assign (name node) (id node) assetList)
      (concat css) (∅ : gmap string string) !! nm
    = id <$> last (childrenNamed nm css)).
  { intros nm Hnm. rewrite fold_left_assign_lookup. unfold childrenNamed.
    case_decide; [done|]. by destruct (last _). }
  split; [done|]. split; [by rewrite fold_left_assign_lookup|]. split.
  - intros nm. destruct (decide (nm = "__proto__")) as [->|Hnm].
    { rewrite fold_left_assign_lookup. simpl. split; [by intros [? ?]|].
      by intros [? _]. }
    rewrite Hlookup by done. unfold childrenNamed. split.
    + intros [i Hi]. split; [done|].
      destruct (last _) as [c|] eqn:Hlast; [|done].
      apply last_Some_elem_of, list_elem_of_filter in Hlast as [? ?].
      by exists c.
    + intros (_ & c & Hin & Hc').
      destruct (last_filter_is_Some (λ c, name c = nm) _ c Hin Hc')
        as (y & -> & _). by eexists.
  - intros f1 f2 cs1 cs2 c1 c2 -> -> _ Hc2 _ Hn2 _.
    rewrite Hlookup by done. unfold childrenNamed. simpl.
    rewrite app_nil_r, filter_app, last_app.
    destruct (last_filter_is_Some (λ c, name c = "icon") _ c2 Hc2 Hn2)
      as (c & -> & Hin & Hnm).
    by exists c.
Qed.

Lemma makeAssetList_last_wins_witness :
  ∃ assetList,
    makeAssetList [Obj toolbarFrame; Null; Obj sidebarFrame] = Ok assetList ∧
    assetList !! "icon" = Some "2:2" ∧
    assetList !! "group" = Some "1:3" ∧
    assetList !! "nested" = None.
Proof.
  destruct (makeAssetList_last_wins
              [Obj toolbarFrame; Null; Obj sidebarFrame]
              [[mkNode "1:2" "icon" "VECTOR" None;
                mkNode "1:3" "group" "GROUP"
                  (Some [mkNode "1:4" "nested" "VECTOR" None])];
               [mkNode "2:2" "icon" "VECTOR" None]] eq_refl)
    as (assetList & Hmake & Hlast & _).
  exists assetList. split; [exact Hmake|].
  split; [|split]; rewrite Hlast by discriminate; reflexivity.
Defined.

(** ** Orchestrator *)

Lemma includes_app_l (a t s : string) : includes t s → includes (a +:+ t) s.
Proof.
  intros (pre & post & ->). exists (a +:+ pre), post.
  by rewrite string_app_assoc.
Qed.

Lemma includes_app_r (t b s : string) : includes t s → includes (t +:+ b) s.
Proof.
  intros (pre & post & ->). exists pre, (post +:+ b).
  by rewrite !string_app_assoc.
Qed.

Lemma includes_refl (s : string) : includes s s.
Proof. exists "", "". by rewrite string_app_nil_r. Qed.

Lemma includes_join (sep : string) (l : list string) (x : string) :
  x ∈ l → includes (Array_join sep l) x.
Proof.
  induction l as [|y l IH]; [by intros ?%elem_of_nil|].
  intros [->|Hin]%elem_of_cons; destruct l as [|z l].
  - apply includes_refl.
  - apply includes_app_r, includes_refl.
  - by apply elem_of_nil in Hin.
  - change (includes (y +:+ sep +:+ Array_join sep (z :: l)) x).
    by apply includes_app_l, includes_app_l, IH.
Qed.

Lemma get_success api endpoint params response :
  _fetchFunc api (requestUrl endpoint params) (_personalAccessToken api)
    = Ok response →
  (status response < 400)%N →
  get api endpoint params = json response.
Proof.
  intros Hfetch Hstatus. unfold get. rewrite Hfetch. simpl.
  by destruct (N.leb_spec 400 (status response)) as [?|_]; [lia|].
Qed.

(** Without a frame of that name the search yields [null] or [undefined]. *)
Lemma findNameInNode_absent nm n :
  List.find (isFrameNamed nm) (preorder n) = None →
  findNameInNode nm n = VNull ∨ findNameInNode nm n = VUndefined.
Proof.
  intros Hnone.
  pose proof (proj1 (findNameInNode_preorder nm n) Hnone) as Hfalsy.
  destruct n as [i m t [cs|]]; simpl in *;
    change (isFrameNamed nm (mkNode i m t _))
      with (bool_decide (nm = m) && bool_decide (t = "FRAME")) in Hnone;
    destruct (bool_decide (nm = m) && bool_decide (t = "FRAME"));
    try done; [|by left].
  right. unfold Array_find in *.
  destruct (List.find Boolean _) as [v|] eqn:Hfind; [|done].
  apply find_some in Hfind as [_ Hv]. simpl in Hfalsy. congruence.
Qed.

(** Only a string is strictly equal to an identifier. *)
Lemma find_idIs_not_string (v : Value) (l : list Node) :
  (∀ s, v ≠ VStr s) → List.find (idIs v) l = None.
Proof.
  intros Hv. induction l as [|n l IH]; simpl; [done|].
  unfold idIs at 1. case_bool_decide; [by destruct (Hv (id n))|done].
Qed.

Lemma filterBoolean_nil {A} (l : list (Ref A)) :
  Forall (λ r, toOption r = None) l → filterBoolean l = [].
Proof.
  unfold filterBoolean. induction 1 as [|r l Hr _ IH]; simpl; [done|].
  by rewrite Hr.
Qed.

(** C6: when the document is fetched and neither a requested identifier
    nor a requested name designates one of its nodes, [getFigmassets] fails
    with the error [No matching frames for ...], whose message contains
    every requested identifier and every requested name; no image record
    comes back.  With [frameIds = ["X"]] and no name the message is
    [No matching frames for X, ]. *)
Theorem getFigmassets_no_matching_frames
    (frameIds : list Value) (frameNames : list string)
    (fileKey personalAccessToken : string) (scales : list Number)
    (format : string) (fetchFunc : string → string → Result Response)
    (response : Response) (o : Body) (root : Node) :
  fetchFunc (requestUrl ("files/" +:+ fileKey) None) personalAccessToken
    = Ok response →
  (status response < 400)%N →
  json response = Ok (JsonObject o) →
  document o = Some root →
  (∀ nodeId, nodeId ∈ frameIds →
     List.find (idIs nodeId) (preorder root) = None) →
  (∀ nm, nm ∈ frameNames →
     List.find (isFrameNamed nm) (preorder root) = None) →
  ∃ message,
    getFigmassets frameIds frameNames fileKey personalAccessToken scales
      format fetchFunc = Throw (Error message) ∧
    includes message "No matching frames" ∧
    (∀ s, VStr s ∈ frameIds → includes message s) ∧
    (∀ nm, nm ∈ frameNames → includes message nm) ∧
    (frameIds = [VStr "X"] → frameNames = [] →
     message = "No matching frames for X, ").
Proof.
  intros Hfetch Hstatus Hjson Hdoc Hids Hnames.
  set (resolved := match frameNames with
                   | [] => frameIds
                   | _ => frameIds ++ ((λ nm, findNameInNode nm root) <$> frameNames)
                   end).
  assert (Hresolved : ∀ nodeId, nodeId ∈ resolved →
            List.find (idIs nodeId) (preorder root) = None).
  { intros nodeId Hin.
    assert (nodeId ∈ frameIds ∨
            nodeId ∈ (λ nm, findNameInNode nm root) <$> frameNames) as [?|Hn].
    { subst resolved. destruct frameNames; [by left|].
      by apply elem_of_app in Hin. }
    - by apply Hids.
    - apply list_elem_of_fmap in Hn as (nm & -> & Hnm).
      destruct (findNameInNode_absent nm root (Hnames nm Hnm)) as [-> | ->];
        by apply find_idIs_not_string. }
  exists ("No matching frames for " +:+ Array_toString resolved +:+ ", " +:+
          Array_join "," frameNames).
  split.
  { unfold getFigmassets.
    rewrite (get_success _ _ _ response) by done. rewrite Hjson. simpl.
    assert (Hf : (match frameNames with
                  | [] => Ok frameIds
                  | _ => ids ← findNodeIdsForNames (JsonObject o) frameNames;
                         Ok (frameIds ++ ids)
                  end) = Ok resolved).
    { subst resolved. destruct frameNames as [|nm names]; [done|].
      unfold findNodeIdsForNames, getDocument. rewrite Hdoc.
      simpl. change (mapM ?f names) with (mapM (M:=Result) f names).
      by rewrite (mapM_Ok (λ nm, findNameInNode nm root)). }
    rewrite Hf. simpl.
    unfold findNodesById, getDocument. rewrite Hdoc. simpl.
    rewrite (mapM_Ok (λ nodeId, findNode nodeId root)). simpl.
    rewrite filterBoolean_nil; [done|].
    apply Forall_fmap, Forall_forall. intros nodeId Hin. simpl.
    rewrite findNode_preorder. by apply Hresolved. }
  split; [by exists "", (" for " +:+ Array_toString resolved +:+ ", " +:+
                         Array_join "," frameNames)|].
  split; [|split].
  - intros s Hs. apply includes_app_l, includes_app_r.
    unfold Array_toString. apply includes_join.
    apply list_elem_of_fmap. exists (VStr s). split; [done|].
    subst resolved. destruct frameNames; [done|].
    apply elem_of_app. by left.
  - intros nm Hnm. do 3 apply includes_app_l. by apply includes_join.
  - intros -> ->. done.
Qed.

Lemma getFigmassets_no_matching_frames_witness :
  getFigmassets [VStr "X"] [] "KEY" "token" [Dec 1 0] "png" fetchIconsDocument
    = Throw (Error "No matching frames for X, ").
Proof.
  destruct (getFigmassets_no_matching_frames [VStr "X"] [] "KEY" "token"
              [Dec 1 0] "png" fetchIconsDocument
              {| status := 200; json := Ok (fileOf iconsDocument) |}
              {| err := VUndefined; document := Some iconsDocument;
                 images := None |}
              iconsDocument eq_refl)
    as (message & -> & _ & _ & _ & Hmsg).
  - vm_compute. reflexivity.
  - reflexivity.
  - reflexivity.
  - intros nodeId ->%list_elem_of_singleton. reflexivity.
  - intros nm Hnm. by apply elem_of_nil in Hnm.
  - by rewrite Hmsg.
Defined.

(** ** Image resolver *)

Lemma mapM_Forall2 {A B} (f : A → Result B) (R : A → B → Prop) (l : list A) :
  (∀ x, x ∈ l → ∃ y, f x = Ok y ∧ R x y) →
  ∃ ys, mapM f l = Ok ys ∧ Forall2 R l ys.
Proof.
  induction l as [|x l IH]; intros Hf; [by exists []|].
  destruct (Hf x) as (y & Hy & HR); [by left|].
  destruct IH as (ys & Hys & HRs); [intros z Hz; apply Hf; by right|].
  exists (y :: ys). split; [|by constructor].
  simpl. rewrite Hy. simpl. by rewrite Hys.
Qed.

Lemma mapM_Ok_length {A B} (f : A → Result B) (l : list A) (ys : list B) :
  mapM f l = Ok ys → length ys = length l.
Proof.
  revert ys. induction l as [|x l IH]; intros ys; simpl; [by intros [= <-]|].
  destruct (f x) as [y|]; simpl; [|done].
  destruct (mapM f l) as [zs|]; simpl; [|done].
  intros [= <-]. simpl. by rewrite (IH zs).
Qed.

Lemma scaleKey_not_id (scale : Number) : scaleKey scale ≠ "id".
Proof. unfold scaleKey. str_simpl. discriminate. Qed.

Lemma scaleKey_inj_toString (s1 s2 : Number) :
  scaleKey s1 = scaleKey s2 → Number_toString s1 = Number_toString s2.
Proof.
  unfold scaleKey. str_simpl. intros [= H]. by apply string_app_inj_r in H.
Qed.

(** One pass of the inner loop, over a list of pairs with distinct names. *)
Lemma putScale_fold (scale : Number) (imageList : Json)
    (l : list (string * string))
    (assetsWithUrls updated : gmap string (gmap string Value)) :
  NoDup l.*1 →
  foldlM (putScale scale imageList) l assetsWithUrls = Ok updated →
  ∀ name,
    match (list_to_map l : gmap string string) !! name with
    | Some nodeId =>
        ∃ url, getImage imageList nodeId = Ok url ∧
          updated !! name =
            Some (<[scaleKey scale := url]>
                    (default (newEntry name nodeId) (assetsWithUrls !! name)))
    | None => updated !! name = assetsWithUrls !! name
    end.
Proof.
  revert assetsWithUrls.
  induction l as [|[k v] l IH]; intros assetsWithUrls Hnd Hfold name.
  { simpl in *. by simplify_eq. }
  apply NoDup_cons in Hnd as [Hk Hnd]. simpl in Hfold.
  destruct (getImage imageList v) as [url|] eqn:Himage; simpl in Hfold; [|done].
  specialize (IH _ Hnd Hfold name). simpl.
  destruct (decide (k = name)) as [<-|Hne].
  - rewrite lookup_insert_eq.
    rewrite (not_elem_of_list_to_map_1 _ k) in IH by done.
    rewrite lookup_insert_eq in IH. by exists url.
  - rewrite lookup_insert_ne by done.
    by rewrite lookup_insert_ne in IH by done.
Qed.

Lemma addScale_lookup (assetList : gmap string string) (scale : Number)
    (imageList : Json) (assetsWithUrls updated : gmap string (gmap string Value)) :
  addScale assetList scale imageList assetsWithUrls = Ok updated →
  ∀ name,
    match assetList !! name with
    | Some nodeId =>
        ∃ url, getImage imageList nodeId = Ok url ∧
          updated !! name =
            Some (<[scaleKey scale := url]>
                    (default (newEntry name nodeId) (assetsWithUrls !! name)))
    | None => updated !! name = assetsWithUrls !! name
    end.
Proof.
  intros Hadd name.
  pose proof (putScale_fold scale imageList (map_to_list assetList) _ _
                (NoDup_fst_map_to_list assetList) Hadd name) as H.
  by rewrite list_to_map_to_list in H.
Qed.

Lemma addScale_total (assetList : gmap string string) (scale : Number)
    (o : Body) (m : gmap string Value)
    (assetsWithUrls : gmap string (gmap string Value)) :
  images o = Some m →
  ∃ updated, addScale assetList scale (JsonObject o) assetsWithUrls = Ok updated.
Proof.
  intros Hm. unfold addScale. revert assetsWithUrls.
  induction (map_to_list assetList) as [|[k v] l IH]; intros assetsWithUrls;
    [by eexists|].
  simpl. rewrite Hm. simpl. apply IH.
Qed.

(** The loop over the scales, when every response carries an [images]
    table: after the scales [prefix ++ rest] each asset has the entry
    [assetEntry]. *)
Lemma mergeScales_known (assetList : gmap string string)
    (images_of : Number → gmap string Value)
    (rest : list Number) (imageLists : list Json) :
  Forall2 (λ scale imageList,
             ∃ o, imageList = JsonObject o ∧ images o = Some (images_of scale))
          rest imageLists →
  ∀ (prefix : list Number) (assetsWithUrls : gmap string (gmap string Value)),
  (∀ name, assetsWithUrls !! name =
           match prefix with
           | [] => None
           | _ => assetEntry images_of prefix name <$> assetList !! name
           end) →
  ∃ record,
    foldlM (λ assetsWithUrls (si : Number * Json),
              addScale assetList si.1 si.2 assetsWithUrls)
           (zip rest imageLists) assetsWithUrls = Ok record ∧
    ∀ name, record !! name =
            match prefix ++ rest with
            | [] => None
            | _ => assetEntry images_of (prefix ++ rest) name <$> assetList !! name
            end.
Proof.
  induction 1 as [|scale imageList rest imageLists (o & -> & Ho) _ IH];
    intros prefix assetsWithUrls Hinv.
  { exists assetsWithUrls. split; [done|]. by rewrite app_nil_r. }
  destruct (addScale_total assetList scale o _ assetsWithUrls Ho)
    as [updated Hupdated].
  destruct (IH (prefix ++ [scale]) updated) as (record & Hrecord & Hlookup).
  - intros name.
    pose proof (addScale_lookup _ _ _ _ _ Hupdated name) as Hname.
    rewrite Hinv in Hname.
    replace (match prefix ++ [scale] with
             | [] => None
             | _ => assetEntry images_of (prefix ++ [scale]) name
                      <$> assetList !! name
             end)
      with (assetEntry images_of (prefix ++ [scale]) name <$> assetList !! name)
      by by destruct prefix.
    destruct (assetList !! name) as [nodeId|]; simpl in *.
    + destruct Hname as (url & Hurl & ->). rewrite Ho in Hurl.
      injection Hurl as <-. f_equal.
      unfold assetEntry. rewrite fold_left_app. simpl. f_equal.
      by destruct prefix.
    + rewrite Hname. by destruct prefix.
  - exists record. split.
    + simpl. rewrite Hupdated. simpl. done.
    + intros name. rewrite Hlookup. by rewrite <- (assoc_L (++)).
Qed.

Lemma newEntry_id (name nodeId : string) :
  newEntry name nodeId !! "id" =
  if isInherited name then None else Some (VStr nodeId).
Proof. unfold newEntry. by destruct (isInherited name). Qed.


(** C1, at the failing input: the asset [a] has the identifier
    [constructor], which the table of the response does not hold; the
    record stores under [@1x] the function every object inherits under
    that name, not [undefined]. *)
Theorem getAssetImages_inherited_id :
  getAssetImages (answering (imagesResponse ∅)) "KEY"
    {[ "a" := "constructor" ]} [Dec 1 0] "png"
  = Ok {[ "a" := {[ "id" := VStr "constructor";
                    "@1x" := VInherited "constructor" ]} ]}.
Proof. vm_compute. reflexivity. Qed.

(** X23: when every per-scale request returns an [images] table,
    [getAssetImages] returns a record in which, for each asset and each
    requested scale, the key [@<scale>x] holds what reading the asset's
    identifier in the table of that scale gives: [undefined] when the
    identifier is missing from the table and is not a name inherited from
    [Object.prototype]; the call does not fail.  The entry has the [id] of
    the asset unless the asset's name is inherited from [Object.prototype].
    For the asset list [{a: "1", b: "2"}], the scales [1, 2] and the tables
    [{1: urlA1, 2: urlB1}] and [{1: urlA2}], the record is
    [{a: {id: "1", @1x: urlA1, @2x: urlA2},
      b: {id: "2", @1x: urlB1, @2x: undefined}}]. *)
Theorem getAssetImages_merges (api : figmaApi) (fileKey format : string)
    (assetList : gmap string string) (scales : list Number)
    (images_of : Number → gmap string Value) :
  (∀ scale, scale ∈ scales →
     ∃ o, getImageList api fileKey assetList format scale = Ok (JsonObject o) ∧
          images o = Some (images_of scale)) →
  assetList !! "__proto__" = None →
  ∃ record,
    getAssetImages api fileKey assetList scales format = Ok record ∧
    (∀ name nodeId scale,
       assetList !! name = Some nodeId → scale ∈ scales →
       ∃ asset, record !! name = Some asset ∧
                asset !! "id" =
                  (if isInherited name then None else Some (VStr nodeId)) ∧
                asset !! scaleKey scale =
                  Some (getProperty (images_of scale) nodeId) ∧
                (images_of scale !! nodeId = None →
                 isInherited nodeId = false →
                 asset !! scaleKey scale = Some VUndefined)) ∧
    (assetList = {[ "a" := "1"; "b" := "2" ]} →
     scales = [Dec 1 0; Dec 2 0] →
     images_of (Dec 1 0) = {[ "1" := VStr "urlA1"; "2" := VStr "urlB1" ]} →
     images_of (Dec 2 0) = {[ "1" := VStr "urlA2" ]} →
     record =
       {[ "a" := {[ "id" := VStr "1"; "@1x" := VStr "urlA1";
                    "@2x" := VStr "urlA2" ]};
          "b" := {[ "id" := VStr "2"; "@1x" := VStr "urlB1";
                    "@2x" := VUndefined ]} ]}).
Proof.
  intros Hresponses _.
  destruct (mapM_Forall2 (getImageList api fileKey assetList format)
              (λ scale imageList,
                 ∃ o, imageList = JsonObject o ∧
                      images o = Some (images_of scale)) scales)
    as (imageLists & HmapM & Hall).
  { intros scale Hscale. destruct (Hresponses scale Hscale) as (o & Ho & Hm).
    exists (JsonObject o). split; [done|]. by exists o. }
  destruct (mergeScales_known assetList images_of scales imageLists Hall [] ∅)
    as (record & Hrecord & Hlookup); [intros name; apply lookup_empty|].
  simpl in Hlookup.
  exists record. split; [|split].
  - unfold getAssetImages. rewrite HmapM. simpl. exact Hrecord.
  - intros name nodeId scale Hname Hscale.
    rewrite Hlookup, Hname.
    destruct scales as [|s0 scales0] eqn:Hscales; [by apply elem_of_nil in Hscale|].
    rewrite <- Hscales in *. simpl.
    eexists. split; [done|]. unfold assetEntry.
    rewrite !(fold_left_insert_lookup scaleKey
               (λ scale, getProperty (images_of scale) nodeId)).
    assert (Hkey : (match last (filter (λ x, scaleKey x = scaleKey scale) scales) with
                    | Some x => Some (getProperty (images_of x) nodeId)
                    | None => newEntry name nodeId !! scaleKey scale
                    end) = Some (getProperty (images_of scale) nodeId)).
    { destruct (last_filter_is_Some (λ x, scaleKey x = scaleKey scale)
                  scales scale Hscale eq_refl) as (s & -> & Hs & Hkey).
      do 2 f_equal.
      destruct (Hresponses s Hs) as (o1 & Ho1 & Hm1).
      destruct (Hresponses scale Hscale) as (o2 & Ho2 & Hm2).
      unfold getImageList in Ho1, Ho2.
      rewrite (scaleKey_inj_toString _ _ Hkey) in Ho1.
      rewrite Ho1 in Ho2. injection Ho2 as <-. congruence. }
    split; [|split].
    + destruct (last (filter (λ x, scaleKey x = "id") scales)) as [s|] eqn:Hlast;
        [|apply newEntry_id].
      apply last_Some_elem_of, list_elem_of_filter in Hlast as [Hkey' _].
      by destruct (scaleKey_not_id s).
    + exact Hkey.
    + intros Hmissing Hown. rewrite Hkey. unfold getProperty.
      by rewrite Hmissing, Hown.
  - intros -> -> H1 H2.
    assert (Hrec : record
              = map_imap (λ name nodeId,
                  Some (assetEntry images_of [Dec 1 0; Dec 2 0] name nodeId))
                  ({[ "a" := "1"; "b" := "2" ]} : gmap string string)).
    { apply map_eq. intros name. rewrite Hlookup, map_lookup_imap.
      by destruct (_ !! name). }
    rewrite Hrec. unfold assetEntry. simpl. rewrite H1, H2.
    vm_compute. reflexivity.
Qed.

Lemma getAssetImages_merges_witness :
  getAssetImages exampleApi "KEY" exampleAssetList [Dec 1 0; Dec 2 0] "png"
    = Ok exampleRecord.
Proof.
  destruct (getAssetImages_merges exampleApi "KEY" "png" exampleAssetList
              [Dec 1 0; Dec 2 0] exampleImages)
    as (record & -> & _ & Hexample).
  - intros scale [->|[->|[]%elem_of_nil]%elem_of_cons]%elem_of_cons;
      eexists; (split; [vm_compute; reflexivity|reflexivity]).
  - reflexivity.
  - f_equal. by apply Hexample.
Defined.

(** The loop over the scales, whatever the responses hold: once a scale
    has been merged ([started]) the record has an entry for every asset,
    with the right [id] unless the name of the asset is inherited from
    [Object.prototype], and it never has another key. *)
Lemma mergeScales_keys (assetList : gmap string string)
    (l : list (Number * Json)) :
  ∀ (started : bool) (assetsWithUrls record : gmap string (gmap string Value)),
  foldlM (λ assetsWithUrls (si : Number * Json),
            addScale assetList si.1 si.2 assetsWithUrls) l assetsWithUrls
    = Ok record →
  (∀ name,
     match assetList !! name with
     | Some nodeId =>
         if started
         then ∃ asset, assetsWithUrls !! name = Some asset ∧
                       asset !! "id" =
                         if isInherited name then None else Some (VStr nodeId)
         else assetsWithUrls !! name = None
     | None => assetsWithUrls !! name = None
     end) →
  ∀ name,
    match assetList !! name with
    | Some nodeId =>
        if started || bool_decide (l ≠ [])
        then ∃ asset, record !! name = Some asset ∧
                      asset !! "id" =
                        if isInherited name then None else Some (VStr nodeId)
        else record !! name = None
    | None => record !! name = None
    end.
Proof.
  induction l as [|[scale imageList] l IH];
    intros started assetsWithUrls record Hfold Hinv name.
  { simpl in Hfold. injection Hfold as <-.
    rewrite orb_false_r. apply Hinv. }
  simpl in Hfold.
  destruct (addScale assetList scale imageList assetsWithUrls)
    as [updated|] eqn:Hupdated; simpl in Hfold; [|done].
  specialize (IH true updated record Hfold).
  rewrite orb_true_r. simpl in IH. apply IH. clear name. intros name.
  pose proof (addScale_lookup _ _ _ _ _ Hupdated name) as Hname.
  specialize (Hinv name).
  destruct (assetList !! name) as [nodeId|]; [|by rewrite Hname].
  destruct Hname as (url & _ & ->). eexists. split; [done|].
  rewrite lookup_insert_ne by apply scaleKey_not_id.
  destruct started.
  - by destruct Hinv as (asset & -> & ?).
  - rewrite Hinv. simpl. apply newEntry_id.
Qed.

(** C9, at the failing input: for an asset named [toString] the entry of
    the record is the function every object inherits under that name,
    which carries the scale keys and no [id]. *)
Theorem getAssetImages_inherited_name :
  getAssetImages (answering (imagesResponse {[ "1:2" := VStr "u" ]})) "KEY"
    {[ "toString" := "1:2" ]} [Dec 1 0] "png"
  = Ok {[ "toString" := {[ "@1x" := VStr "u" ]} ]}.
Proof. vm_compute. reflexivity. Qed.

(** C9 as stated fails: an entry of the record need not have the [id] of
    its asset. *)
Lemma getAssetImages_inherited_name_counterexample :
  ¬ (∀ (api : figmaApi) (fileKey format : string)
       (assetList : gmap string string) (scales : list Number)
       (record : gmap string (gmap string Value)),
       scales ≠ [] →
       getAssetImages api fileKey assetList scales format = Ok record →
       dom record = dom assetList ∧
       ∀ name nodeId, assetList !! name = Some nodeId →
         ∃ asset, record !! name = Some asset ∧
                  asset !! "id" = Some (VStr nodeId)).
Proof.
  intros H.
  destruct (H (answering (imagesResponse {[ "1:2" := VStr "u" ]})) "KEY" "png"
              {[ "toString" := "1:2" ]} [Dec 1 0]
              {[ "toString" := {[ "@1x" := VStr "u" ]} ]})
    as [_ Hid]; [done|vm_compute; reflexivity|].
  destruct (Hid "toString" "1:2" eq_refl) as (asset & [= <-] & Habsurd).
  discriminate Habsurd.
Qed.

(** X24: for a non-empty list of scales, the record returned by
    [getAssetImages] has the keys of the asset list and no other, whatever
    the responses contain; the [id] of an entry is the identifier the
    asset list gives to its name, unless that name is inherited from
    [Object.prototype], in which case the entry has no [id]. *)
Theorem getAssetImages_keys (api : figmaApi) (fileKey format : string)
    (assetList : gmap string string) (scales : list Number)
    (record : gmap string (gmap string Value)) :
  scales ≠ [] →
  assetList !! "__proto__" = None →
  getAssetImages api fileKey assetList scales format = Ok record →
  dom record = dom assetList ∧
  ∀ name nodeId, assetList !! name = Some nodeId →
    ∃ asset, record !! name = Some asset ∧
             asset !! "id" =
               if isInherited name then None else Some (VStr nodeId).
Proof.
  intros Hscales _ Hget. unfold getAssetImages in Hget.
  destruct (mapM _ scales) as [imageLists|] eqn:HmapM; simpl in Hget; [|done].
  apply mapM_Ok_length in HmapM.
  pose proof (mergeScales_keys assetList _ false ∅ record Hget) as Hinv.
  assert (Hstarted : bool_decide (zip scales imageLists ≠ []) = true).
  { by destruct scales, imageLists; simplify_eq/=. }
  rewrite Hstarted in Hinv. simpl in Hinv.
  assert (Hrecord : ∀ name,
    match assetList !! name with
    | Some nodeId => ∃ asset, record !! name = Some asset ∧
                              asset !! "id" =
                                if isInherited name then None
                                else Some (VStr nodeId)
    | None => record !! name = None
    end).
  { apply Hinv. intros name. rewrite lookup_empty. by destruct (_ !! _). }
  split.
  - apply set_eq. intros name. rewrite !elem_of_dom.
    specialize (Hrecord name). destruct (assetList !! name).
    + destruct Hrecord as (asset & -> & _). by split; eexists.
    + rewrite Hrecord. by split; intros [? ?].
  - intros name nodeId Hname. specialize (Hrecord name).
    by rewrite Hname in Hrecord.
Qed.

Lemma getAssetImages_keys_witness :
  dom exampleRecord = dom exampleAssetList ∧
  ∀ name nodeId, exampleAssetList !! name = Some nodeId →
    ∃ asset, exampleRecord !! name = Some asset ∧
             asset !! "id" =
               if isInherited name then None else Some (VStr nodeId).
Proof.
  apply (getAssetImages_keys exampleApi "KEY" "png" exampleAssetList
           [Dec 1 0; Dec 2 0] exampleRecord); [discriminate|reflexivity|].
  vm_compute. reflexivity.
Defined.

(** ** Map integration *)

Lemma pow10_pos (e : nat) : (0 < 10 ^ N.of_nat e)%N.
Proof. apply N.neq_0_lt_0, N.pow_nonzero. lia. Qed.

Lemma Number_le_trans a b c :
  isDec a → isDec b → isDec c →
  Number_lt b a = false → Number_lt c b = false → Number_lt c a = false.
Proof.
  destruct a as [| |ma ea], b as [| |mb eb], c as [| |mc ec]; simpl; try done.
  intros _ _ _ H1%N.ltb_ge H2%N.ltb_ge. apply N.ltb_ge.
  pose proof (pow10_pos ea). pose proof (pow10_pos eb). pose proof (pow10_pos ec).
  nia.
Qed.

Lemma is_nat_pretty_N_char (k : N) :
  (k < 10)%N → Ascii.is_nat (pretty_N_char k) = Some (N.to_nat k).
Proof.
  intros Hk.
  assert (k = 0 ∨ k = 1 ∨ k = 2 ∨ k = 3 ∨ k = 4 ∨ k = 5 ∨ k = 6 ∨ k = 7 ∨
          k = 8 ∨ k = 9)%N as Hcases by lia.
  repeat destruct Hcases as [->|Hcases]; try subst k; reflexivity.
Qed.

Lemma digitsVal_app (a b : string) (acc : N) :
  digitsVal (a +:+ b) acc = digitsVal a acc ≫= digitsVal b.
Proof.
  revert acc. induction a as [|c a IH]; intros acc; str_simpl; simpl; [done|].
  destruct (Ascii.is_nat c); [apply IH|done].
Qed.

Lemma allDigits_app (a b : string) :
  allDigits (a +:+ b) = allDigits a && allDigits b.
Proof.
  induction a as [|c a IH]; str_simpl; simpl; [done|].
  by rewrite IH, andb_assoc.
Qed.

(** The digits written by [pretty_N_go]. *)
Lemma pretty_N_go_digits (x : N) :
  ∀ s, ∃ d, pretty_N_go x s = d +:+ s ∧ allDigits d = true ∧
            (0 < x → d ≠ "")%N ∧
            ∀ acc, digitsVal d acc
                   = Some (acc * 10 ^ N.of_nat (String.length d) + x)%N.
Proof.
  induction (N.lt_wf_0 x) as [x _ IH]. intros s.
  destruct (decide (x = 0)%N) as [->|Hx].
  { exists "". rewrite pretty_N_go_0. split; [done|]. split; [done|].
    split; [lia|]. intros acc. simpl; f_equal; lia. }
  rewrite pretty_N_go_step by lia.
  destruct (IH (x `div` 10)%N) with (String (pretty_N_char (x `mod` 10)) s)
    as (d & -> & Hd & _ & Hval).
  { apply N.div_lt; lia. }
  exists (d +:+ String (pretty_N_char (x `mod` 10)) "").
  split; [by rewrite string_app_assoc|].
  assert (Hchar := is_nat_pretty_N_char (x `mod` 10)%N
                     (N.mod_lt x 10 ltac:(lia))).
  split; [|split].
  - rewrite allDigits_app, Hd. simpl. rewrite Hchar. done.
  - intros _. by destruct d.
  - intros acc. rewrite digitsVal_app, Hval. simpl. rewrite Hchar. f_equal.
    rewrite string_app_length. simpl.
    rewrite Nat.add_1_r, Nat2N.inj_succ, N.pow_succ_r', N2Nat.id.
    pose proof (N.div_mod x 10 ltac:(lia)). lia.
Qed.

Lemma pretty_N_digits (x : N) :
  allDigits (pretty x) = true ∧ pretty x ≠ "" ∧
  ∀ acc, digitsVal (pretty x) acc
         = Some (acc * 10 ^ N.of_nat (String.length (pretty x)) + x)%N.
Proof.
  unfold pretty, pretty_N. case_decide as Hx.
  - subst x. split; [done|]. split; [done|].
    intros acc. simpl; f_equal; lia.
  - destruct (pretty_N_go_digits x "") as (d & -> & Hd & Hne & Hval).
    rewrite string_app_nil_r. split; [done|]. split; [apply Hne; lia|done].
Qed.

Lemma fracDigits_digits (e : nat) :
  ∀ r acc, ∃ d, fracDigits e r acc = d +:+ acc ∧ allDigits d = true ∧
                String.length d = e ∧
                ∀ a, digitsVal d a
                     = Some (a * 10 ^ N.of_nat e + r `mod` 10 ^ N.of_nat e)%N.
Proof.
  induction e as [|e IH]; intros r acc.
  { exists "". split; [done|]. split; [done|]. split; [done|].
    intros a. simpl. rewrite N.mod_1_r. f_equal. lia. }
  simpl fracDigits.
  destruct (IH (r `div` 10)%N (String (pretty_N_char (r `mod` 10)) acc))
    as (d & -> & Hd & Hlen & Hval).
  exists (d +:+ String (pretty_N_char (r `mod` 10)) "").
  assert (Hchar := is_nat_pretty_N_char (r `mod` 10)%N
                     (N.mod_lt r 10 ltac:(lia))).
  split; [by rewrite string_app_assoc|]. split; [|split].
  - rewrite allDigits_app, Hd. simpl. by rewrite Hchar.
  - rewrite string_app_length, Hlen. simpl. lia.
  - intros a. rewrite digitsVal_app, Hval. simpl. rewrite Hchar. f_equal.
    rewrite N2Nat.id, Nat2N.inj_succ, N.pow_succ_r'.
    rewrite (N.Div0.mod_mul_r r 10). lia.
Qed.

Lemma is_nat_not_dot (c : ascii) :
  is_Some (Ascii.is_nat c) → Ascii.eqb c "." = false.
Proof.
  intros [d Hd]. destruct (Ascii.eqb_spec c "."); [|done]. by subst c.
Qed.

Lemma splitDot_digits (a : string) :
  allDigits a = true → splitDot a = (a, None).
Proof.
  induction a as [|c a IH]; simpl; [done|].
  intros [Hc%bool_decide_eq_true Ha]%andb_true_iff.
  by rewrite (is_nat_not_dot c), IH.
Qed.

Lemma splitDot_digits_dot (a b : string) :
  allDigits a = true → splitDot (a +:+ "." +:+ b) = (a, Some b).
Proof.
  induction a as [|c a IH]; str_simpl; simpl; [done|].
  intros [Hc%bool_decide_eq_true Ha]%andb_true_iff.
  by rewrite (is_nat_not_dot c), IH.
Qed.

Lemma stripNonNumeric_app (a b : string) :
  stripNonNumeric (a +:+ b) = stripNonNumeric a +:+ stripNonNumeric b.
Proof.
  induction a as [|c a IH]; str_simpl; simpl; [done|].
  destruct (isDigitOrDot c); str_simpl; by rewrite IH.
Qed.

Lemma stripNonNumeric_digits (a : string) :
  allDigits a = true → stripNonNumeric a = a.
Proof.
  induction a as [|c a IH]; simpl; [done|].
  intros [[d Hc]%bool_decide_eq_true Ha]%andb_true_iff.
  unfold isDigitOrDot. by rewrite Hc, IH.
Qed.

Lemma normalize_idemp (m : N) (e : nat) :
  normalize (normalize m e).1 (normalize m e).2 = normalize m e.
Proof.
  revert m. induction e as [|e IH]; intros m; simpl; [done|].
  destruct (m `mod` 10 =? 0)%N eqn:Hm; [apply IH|].
  simpl. by rewrite Hm.
Qed.

Lemma normalize_value (m : N) (e : nat) :
  (m * 10 ^ N.of_nat (normalize m e).2
   = (normalize m e).1 * 10 ^ N.of_nat e)%N.
Proof.
  revert m. induction e as [|e IH]; intros m; simpl normalize; [done|].
  destruct (N.eqb_spec (m `mod` 10) 0) as [Hm|Hm]; [|done].
  specialize (IH (m `div` 10)%N).
  rewrite Nat2N.inj_succ, N.pow_succ_r'.
  pose proof (N.div_mod m 10 ltac:(lia)). nia.
Qed.

Lemma Number_toString_canonical (n : Number) :
  Number_toString (canonical n) = Number_toString n.
Proof.
  destruct n as [| |m e]; simpl; try done.
  pose proof (normalize_idemp m e) as H.
  destruct (normalize m e) as [m' e']. simpl in *. by rewrite H.
Qed.

Lemma cross_mul_lt (ma mb ma' mb' A B A' B' : N) :
  (0 < A → 0 < B → 0 < A' → 0 < B' →
   ma * A' = ma' * A → mb * B' = mb' * B →
   ma' * B' < mb' * A' ↔ ma * B < mb * A)%N.
Proof.
  intros HA HB HA' HB' Ha Hb.
  assert (0 < A * B)%N by by apply N.mul_pos_pos.
  assert (0 < A' * B')%N by by apply N.mul_pos_pos.
  rewrite (N.mul_lt_mono_pos_r (A * B) (ma' * B')) by done.
  rewrite (N.mul_lt_mono_pos_r (A' * B') (ma * B)) by done.
  replace (ma' * B' * (A * B))%N with (ma' * A * (B * B'))%N by ring.
  replace (mb' * A' * (A * B))%N with (mb' * B * (A * A'))%N by ring.
  replace (ma * B * (A' * B'))%N with (ma * A' * (B * B'))%N by ring.
  replace (mb * A * (A' * B'))%N with (mb * B' * (A * A'))%N by ring.
  by rewrite Ha, Hb.
Qed.

Lemma Number_lt_canonical (a b : Number) :
  Number_lt (canonical a) (canonical b) = Number_lt a b.
Proof.
  destruct a as [| |ma ea], b as [| |mb eb]; simpl; try done;
    try (by destruct (normalize _ _)).
  pose proof (normalize_value ma ea) as Ha.
  pose proof (normalize_value mb eb) as Hb.
  destruct (normalize ma ea) as [ma' ea'], (normalize mb eb) as [mb' eb'].
  simpl in *.
  apply eq_true_iff_eq. rewrite !N.ltb_lt.
  apply cross_mul_lt; auto using pow10_pos.
Qed.

Lemma plain_isDec (x : Number) : plain x → isDec x.
Proof. by destruct x. Qed.

Lemma plain_canonical (x : Number) : plain x → plain (canonical x).
Proof.
  destruct x as [| |m e]; simpl; try done.
  pose proof (normalize_idemp m e) as H.
  destruct (normalize m e) as [m' e']. simpl in *. by rewrite H.
Qed.

Lemma toNumber_toString (m : N) (e : nat) :
  plain (Dec m e) →
  toNumber (Number_toString (Dec m e)) = canonical (Dec m e).
Proof.
  unfold plain, Number_toString, canonical.
  destruct (normalize m e) as [m' [|e']]; intros [-> _].
  - destruct (pretty_N_digits m') as (Hd & _ & Hval).
    unfold toNumber. rewrite splitDot_digits, Hval by done. simpl.
    f_equal.
  - set (q := (m' `div` 10 ^ N.of_nat (S e'))%N).
    set (r := (m' `mod` 10 ^ N.of_nat (S e'))%N).
    destruct (pretty_N_digits q) as (Hd & Hne & Hval).
    destruct (fracDigits_digits (S e') r "") as (d & Hfrac & Hdd & Hlen & Hdval).
    rewrite string_app_nil_r in Hfrac.
    rewrite Hfrac. unfold toNumber. rewrite splitDot_digits_dot by done.
    destruct (String.eqb_spec (pretty q) ""); [done|]. simpl.
    rewrite digitsVal_app, Hval. simpl. rewrite Hdval, Hlen.
    f_equal.
    pose proof (pow10_pos (S e')).
    subst q r. rewrite N.Div0.mod_mod by lia.
    pose proof (N.div_mod m' (10 ^ N.of_nat (S e')) ltac:(lia)). lia.
Qed.

Lemma stripNonNumeric_toString (m : N) (e : nat) :
  plain (Dec m e) →
  stripNonNumeric (Number_toString (Dec m e)) = Number_toString (Dec m e).
Proof.
  unfold plain, Number_toString.
  destruct (normalize m e) as [m' [|e']]; intros [-> _].
  - apply stripNonNumeric_digits, pretty_N_digits.
  - destruct (fracDigits_digits (S e') (m' `mod` 10 ^ N.of_nat (S e')) "")
      as (d & Hfrac & Hdd & _).
    rewrite string_app_nil_r in Hfrac. rewrite Hfrac.
    rewrite !stripNonNumeric_app.
    rewrite (stripNonNumeric_digits d) by done.
    rewrite (stripNonNumeric_digits (pretty _)) by apply pretty_N_digits.
    done.
Qed.

Lemma maxScale_key (m : N) (e : nat) :
  plain (Dec m e) →
  toNumber (stripNonNumeric (scaleKey (Dec m e))) = canonical (Dec m e).
Proof.
  intros Hplain. unfold scaleKey.
  rewrite !stripNonNumeric_app, stripNonNumeric_toString by done.
  change (stripNonNumeric "@") with "". change (stripNonNumeric "x") with "".
  rewrite string_app_nil_l, string_app_nil_r. by apply toNumber_toString.
Qed.

Lemma isDec_canonical (n : Number) : isDec n → isDec (canonical n).
Proof. destruct n as [| |m e]; simpl; try done. by destruct (normalize m e). Qed.

(** [Math.max] of finite numbers, started from [highest]. *)
Lemma Math_max_fold (l : list Number) :
  Forall isDec l →
  ∀ highest, highest = NegInfinity ∨ isDec highest →
  let result :=
    fold_left
      (λ highest x,
         match highest, x with
         | NaN, _ | _, NaN => NaN
         | _, _ => if Number_lt highest x then x else highest
         end) l highest in
  (result = highest ∨ result ∈ l) ∧
  (isDec highest ∨ l ≠ [] → isDec result) ∧
  Number_lt result highest = false ∧
  ∀ y, y ∈ l → Number_lt result y = false.
Proof.
  induction 1 as [|x l Hx Hl IH]; intros highest Hh; simpl.
  { split; [by left|]. split; [by intros [?|?]|]. split.
    - destruct Hh as [->|Hh]; [done|]. destruct highest; try done.
      simpl. apply N.ltb_irrefl.
    - by intros y ?%elem_of_nil. }
  destruct x as [| |mx ex]; try done.
  set (next := match highest with
               | NaN => NaN
               | _ => if Number_lt highest (Dec mx ex) then Dec mx ex else highest
               end).
  assert (Hnext : isDec next ∧ Number_lt next highest = false ∧
                  Number_lt next (Dec mx ex) = false ∧
                  (next = highest ∨ next = Dec mx ex)).
  { subst next. destruct Hh as [->|Hh].
    - simpl. rewrite N.ltb_irrefl. auto.
    - destruct highest as [| |mh eh]; try done.
      destruct (Number_lt (Dec mh eh) (Dec mx ex)) eqn:Hlt.
      + split; [done|]. split; [|split; [|by right]].
        * simpl in *. apply N.ltb_lt in Hlt. apply N.ltb_ge. lia.
        * simpl. apply N.ltb_irrefl.
      + split; [done|]. split; [|split; [done|by left]].
        simpl. apply N.ltb_irrefl. }
  destruct Hnext as (Hdec & Hhigh & Hx' & Hcases).
  destruct (IH next (or_intror Hdec)) as (Hin & Hres & Hge & Hall).
  fold next. simpl in *.
  set (result := fold_left _ l next) in *.
  assert (Hresult : isDec result) by (apply Hres; by left).
  split; [|split; [done|split]].
  - destruct Hin as [->|Hin]; [|right; by right].
    destruct Hcases as [->| ->]; [by left|right; by left].
  - destruct Hh as [->|Hh]; [by destruct result|].
    by apply (Number_le_trans highest next result).
  - intros y [->|Hy]%elem_of_cons; [|by apply Hall].
    by apply (Number_le_trans (Dec mx ex) next result).
Qed.

Lemma Math_max_spec (l : list Number) :
  l ≠ [] → Forall isDec l →
  Math_max l ∈ l ∧ ∀ y, y ∈ l → Number_lt (Math_max l) y = false.
Proof.
  intros Hne Hl.
  destruct (Math_max_fold l Hl NegInfinity (or_introl eq_refl))
    as (Hin & Hdec & _ & Hall).
  fold (Math_max l) in *. split; [|done].
  destruct Hin as [Heq|Hin]; [|done].
  assert (isDec (Math_max l)) by (apply Hdec; by right).
  rewrite Heq in *. done.
Qed.

Lemma elem_of_Object_keys {V} (o : gmap string V) (k : string) :
  k ∈ Object_keys o ↔ is_Some (o !! k).
Proof.
  unfold Object_keys. rewrite list_elem_of_fmap. split.
  - intros ([k' v] & -> & Hin%elem_of_map_to_list). by exists v.
  - intros [v Hv]. exists (k, v). split; [done|]. by apply elem_of_map_to_list.
Qed.

(** The scale chosen for an asset whose scale-tagged keys are those of
    [scales]. *)
Lemma maxScale_spec (asset : gmap string Value) (scales : list Number) :
  scales ≠ [] →
  Forall plain scales →
  (∀ k, startsWithAt k = true →
        (is_Some (asset !! k) ↔ ∃ scale, scale ∈ scales ∧ k = scaleKey scale)) →
  ∃ scale, scale ∈ scales ∧
           (∀ s, s ∈ scales → Number_lt scale s = false) ∧
           maxScale asset = canonical scale.
Proof.
  intros Hne Hdec Hkeys. unfold maxScale.
  set (nums := map _ _).
  assert (Hnums : ∀ y, y ∈ nums ↔ ∃ s, s ∈ scales ∧ y = canonical s).
  { intros y. subst nums. rewrite list_elem_of_In, in_map_iff. split.
    - intros (k & <- & Hk%list_elem_of_In).
      apply list_elem_of_filter in Hk as [Hat Hk].
      apply elem_of_Object_keys, (Hkeys k Hat) in Hk as (s & Hs & ->).
      exists s. split; [done|].
      rewrite Forall_forall in Hdec. specialize (Hdec s Hs).
      destruct s; try done. by apply maxScale_key.
    - intros (s & Hs & ->). exists (scaleKey s). split.
      + rewrite Forall_forall in Hdec. specialize (Hdec s Hs).
        destruct s; try done. by apply maxScale_key.
      + apply list_elem_of_In, list_elem_of_filter. split; [done|].
        apply elem_of_Object_keys, Hkeys; [done|]. by exists s. }
  assert (Hnonempty : nums ≠ []).
  { destruct scales as [|s scales]; [done|].
    assert (canonical s ∈ nums) as Hin by (apply Hnums; exists s; split; [by left|done]).
    intros Hnil. rewrite Hnil in Hin. by apply elem_of_nil in Hin. }
  assert (Hall : Forall isDec nums).
  { apply Forall_forall. intros y (s & Hs & ->)%Hnums.
    apply isDec_canonical, plain_isDec. rewrite Forall_forall in Hdec.
    by apply Hdec. }
  destruct (Math_max_spec nums Hnonempty Hall) as [Hin Hmax].
  apply Hnums in Hin as (scale & Hscale & Heq).
  exists scale. split; [done|]. split; [|done].
  intros s Hs. rewrite <- Number_lt_canonical, <- Heq.
  apply Hmax, Hnums. by exists s.
Qed.

(** C4 as stated fails: in the entry [{id: "2", @1x: urlB1, @2x:
    undefined}] the only present entry is [@1x], yet the image is loaded
    from the [undefined] stored under [@2x]. *)
Lemma addAssetsToMap_undefined_counterexample :
  ¬ (∀ (assets : gmap string (gmap string Value)) (iconId : string)
       (asset : gmap string Value) (call : LoadImage unit unit),
       assets !! iconId = Some asset →
       call ∈ addAssetsToMap assets →
       addImage_id (callback call () ()) = iconId →
       ∃ k, presentEntry asset k ∧
            url call = default VUndefined (asset !! k) ∧
            pixelRatio (callback call () ()) = toNumber (stripNonNumeric k) ∧
            ∀ k', presentEntry asset k' →
                  Number_lt (toNumber (stripNonNumeric k))
                            (toNumber (stripNonNumeric k')) = false).
Proof.
  intros H.
  destruct (H {[ "b" := missingAt2 ]} "b" missingAt2
              {| url := VUndefined;
                 callback := λ _ image,
                   {| addImage_id := "b"; addImage_image := image;
                      pixelRatio := Dec 2 0 |} |})
    as (k & (_ & v & Hv & Hdefined) & Hurl & _).
  - reflexivity.
  - apply list_elem_of_In. vm_compute. left. reflexivity.
  - reflexivity.
  - simpl in Hurl. rewrite Hv in Hurl. simpl in Hurl. congruence.
Qed.

(** C4 (amended): for an asset of the image record whose scale-tagged keys
    are the keys [@<n>x] of a non-empty list of scales printed without an
    exponent, [addAssetsToMap] picks a scale that no scale of the list
    exceeds (a key counts whatever is stored under it), loads the image
    from what the asset stores under that scale's key, and registers the
    image under the asset's name with that scale (its fraction in lowest
    terms) as [pixelRatio].  With entries at [@1x] and [@3x] only, scale 3
    is picked. *)
Theorem addAssetsToMap_max_scale {Err Image}
    (assets : gmap string (gmap string Value)) (iconId : string)
    (asset : gmap string Value) (scales : list Number) :
  assets !! iconId = Some asset →
  scales ≠ [] →
  Forall plain scales →
  (∀ k, startsWithAt k = true →
        (is_Some (asset !! k) ↔ ∃ scale, scale ∈ scales ∧ k = scaleKey scale)) →
  ∃ (scale : Number) (call : LoadImage Err Image),
    scale ∈ scales ∧
    (∀ s, s ∈ scales → Number_lt scale s = false) ∧
    call ∈ addAssetsToMap assets ∧
    url call = default VUndefined (asset !! scaleKey scale) ∧
    (∀ error image,
       callback call error image =
         {| addImage_id := iconId; addImage_image := image;
            pixelRatio := canonical scale |}) ∧
    (scales = [Dec 1 0; Dec 3 0] →
     scale = Dec 3 0 ∧
     url call = default VUndefined (asset !! "@3x") ∧
     ∀ error image, pixelRatio (callback call error image) = Dec 3 0).
Proof.
  intros Hasset Hne Hdec Hkeys.
  destruct (maxScale_spec asset scales Hne Hdec Hkeys)
    as (scale & Hscale & Hmax & Heq).
  exists scale.
  exists {| url := default VUndefined (asset !! scaleKey (maxScale asset));
            callback := λ error image,
              {| addImage_id := iconId; addImage_image := image;
                 pixelRatio := maxScale asset |} |}.
  assert (Hkey : scaleKey (maxScale asset) = scaleKey scale).
  { unfold scaleKey. by rewrite Heq, Number_toString_canonical. }
  split; [done|]. split; [done|]. split; [|split; [|split]].
  - unfold addAssetsToMap. apply list_elem_of_In, in_map_iff.
    exists (iconId, asset). split; [done|].
    by apply list_elem_of_In, elem_of_map_to_list.
  - simpl. by rewrite Hkey.
  - intros error image. simpl. by rewrite Heq.
  - intros ->.
    assert (scale = Dec 3 0) as ->.
    { apply elem_of_cons in Hscale as [->|Hscale].
      - specialize (Hmax (Dec 3 0)). simpl in Hmax.
        discriminate Hmax. right; by left.
      - by apply list_elem_of_singleton in Hscale. }
    split; [done|]. split.
    + simpl. by rewrite Hkey.
    + intros error image. simpl. by rewrite Heq.
Qed.

Lemma addAssetsToMap_max_scale_witness :
  ∃ call : LoadImage unit unit,
    call ∈ addAssetsToMap pinAssets ∧
    url call = VStr "pin3.png" ∧
    ∀ error image,
      callback call error image =
        {| addImage_id := "pin"; addImage_image := image;
           pixelRatio := Dec 3 0 |}.
Proof.
  destruct (addAssetsToMap_max_scale (Err:=unit) (Image:=unit)
              pinAssets "pin" pinAsset [Dec 1 0; Dec 3 0])
    as (scale & call & _ & _ & Hcall & _ & Hcallback & Hexample).
  - reflexivity.
  - discriminate.
  - repeat (constructor; [vm_compute; split; reflexivity|]). constructor.
  - intros k Hk. unfold pinAsset. split.
    + intros Hsome.
      destruct (decide (k = "@1x")) as [->|H1];
        [exists (Dec 1 0); split; [by left|done]|].
      destruct (decide (k = "@3x")) as [->|H3];
        [exists (Dec 3 0); split; [right; by left|done]|].
      destruct (decide (k = "id")) as [->|Hid]; [done|].
      rewrite !lookup_insert_ne, lookup_singleton_ne in Hsome by done.
      by destruct Hsome.
    + intros (scale' & [->|[->|[]%elem_of_nil]%elem_of_cons]%elem_of_cons & ->);
        by eexists.
  - destruct (Hexample eq_refl) as (-> & Hurl & _).
    exists call. split; [done|]. split; [done|]. apply Hcallback.
Defined.


(** * Further properties *)

(** ** Document search: soundness, composition and absent results *)

Lemma elem_of_preorder_child (c : Node) (cs : list Node) (f : Node) :
  c ∈ cs → f ∈ preorder c → f ∈ concat (map preorder cs).
Proof.
  intros Hc Hf. apply list_elem_of_In, in_concat. exists (preorder c).
  split; [|by apply list_elem_of_In].
  apply in_map. by apply list_elem_of_In.
Qed.

Lemma find_concat_None {A B} (p : B → bool) (g : A → list B) (l : list A) :
  List.find p (concat (map g l)) = None →
  ∀ x, x ∈ l → List.find p (g x) = None.
Proof.
  induction l as [|y l IH]; simpl; [by intros _ x ?%elem_of_nil|].
  rewrite find_app_list. destruct (List.find p (g y)) eqn:Hy; [done|].
  intros Hl x [->|Hx]%elem_of_cons; [done|by apply IH].
Qed.

(** What the search by name answers is [null], [undefined] or the
    identifier of a frame of that name in the tree. *)
Lemma findNameInNode_sound nm n :
  findNameInNode nm n = VNull ∨ findNameInNode nm n = VUndefined ∨
  ∃ f, findNameInNode nm n = VStr (id f) ∧ f ∈ preorder n ∧
       isFrameNamed nm f = true.
Proof.
  induction n as [i m t|i m t cs IH] using Node_ind; simpl;
    destruct (bool_decide (nm = m) && bool_decide (t = "FRAME")) eqn:Hhere.
  - right. right. exists (mkNode i m t None).
    split; [done|]. split; [by left|done].
  - by left.
  - right. right. exists (mkNode i m t (Some cs)).
    split; [done|]. split; [by left|done].
  - unfold Array_find.
    destruct (List.find Boolean _) as [v|] eqn:Hfind; [|by right; left].
    simpl. apply find_some in Hfind as [Hin _].
    apply in_map_iff in Hin as (c & <- & Hin%list_elem_of_In).
    rewrite Forall_forall in IH.
    destruct (IH c Hin) as [->|[->|(f & -> & Hf & Hframe)]]; auto.
    right. right. exists f. split; [done|]. split; [|done].
    right. by apply (elem_of_preorder_child c).
Qed.

(** X1: [findNodeIdsForNames] answers one entry per requested name, in the
    order of the names; each entry is [null], [undefined] or the identifier
    of a node of the document that bears that name and has type [FRAME]. *)
Theorem findNodeIdsForNames_sound (o : Body) (root : Node)
    (names : list string) (ids : list Value) :
  document o = Some root →
  findNodeIdsForNames (JsonObject o) names = Ok ids →
  length ids = length names ∧
  ∀ i nm, names !! i = Some nm →
    ∃ v, ids !! i = Some v ∧
      (v = VNull ∨ v = VUndefined ∨
       ∃ f, v = VStr (id f) ∧ f ∈ preorder root ∧
            name f = nm ∧ type f = "FRAME").
Proof.
  intros Hdoc. unfold findNodeIdsForNames, getDocument. rewrite Hdoc. simpl.
  rewrite (mapM_Ok (λ nm, findNameInNode nm root)). intros [= <-].
  split; [by rewrite length_fmap|].
  intros i nm Hi. exists (findNameInNode nm root).
  split; [by rewrite list_lookup_fmap, Hi|].
  destruct (findNameInNode_sound nm root) as [->|[->|(f & -> & Hf & Hframe)]];
    auto.
  right. right. exists f. split; [done|]. split; [done|].
  unfold isFrameNamed in Hframe.
  by apply andb_true_iff in Hframe
    as [?%bool_decide_eq_true ?%bool_decide_eq_true].
Qed.

Lemma findNodeIdsForNames_sound_witness :
  findNodeIdsForNames (fileOf iconsDocument) ["Icons"; "Missing"]
    = Ok [VStr "1:2"; VUndefined] ∧
  ∀ i nm, ["Icons"; "Missing"] !! i = Some nm →
    ∃ v, [VStr "1:2"; VUndefined] !! i = Some v ∧
      (v = VNull ∨ v = VUndefined ∨
       ∃ f, v = VStr (id f) ∧ f ∈ preorder iconsDocument ∧
            name f = nm ∧ type f = "FRAME").
Proof.
  split; [reflexivity|].
  apply (findNodeIdsForNames_sound
           {| err := VUndefined; document := Some iconsDocument;
              images := None |} iconsDocument ["Icons"; "Missing"]);
    reflexivity.
Defined.

(** In a list without two nodes of the same identifier, the search by the
    identifier of a member finds that member. *)
Lemma find_idIs_unique (l : list Node) (f : Node) :
  NoDup (id <$> l) → f ∈ l → List.find (idIs (VStr (id f))) l = Some f.
Proof.
  induction l as [|x l IH]; [by intros _ ?%elem_of_nil|].
  rewrite fmap_cons. intros [Hx Hl]%NoDup_cons Hf. simpl. unfold idIs at 1.
  case_bool_decide as Hid.
  - apply elem_of_cons in Hf as [->|Hf]; [done|].
    destruct Hx. injection Hid as <-. by apply list_elem_of_fmap_2.
  - apply elem_of_cons in Hf as [->|Hf]; [done|]. by apply IH.
Qed.

Lemma findNode_toOption {A} (r : Ref A) (a : A) : toOption r = Some a → r = Obj a.
Proof. destruct r; simpl; congruence. Qed.

(** X2: the two searches compose. In a document whose identifiers are all
    different, a name whose first frame has a non-empty identifier resolves
    to an identifier that [findNodesById] maps back to that very frame. *)
Theorem findNodesById_of_resolved_name (o : Body) (root : Node)
    (nm : string) (frame : Node) :
  document o = Some root →
  NoDup (id <$> preorder root) →
  List.find (isFrameNamed nm) (preorder root) = Some frame →
  id frame ≠ "" →
  ∃ ids,
    findNodeIdsForNames (JsonObject o) [nm] = Ok ids ∧
    findNodesById (JsonObject o) ids = Ok [Obj frame].
Proof.
  intros Hdoc Hunique Hfirst Hid. exists [VStr (id frame)].
  unfold findNodeIdsForNames, findNodesById, getDocument. rewrite Hdoc. simpl.
  rewrite (proj2 (findNameInNode_preorder nm root) frame Hfirst Hid).
  split; [done|]. do 2 f_equal.
  apply findNode_toOption. rewrite findNode_preorder.
  apply find_idIs_unique; [done|].
  apply find_some in Hfirst as [Hin _]. by apply list_elem_of_In.
Qed.

Lemma findNodesById_of_resolved_name_witness :
  ∃ ids,
    findNodeIdsForNames (fileOf iconsDocument) ["Icons"] = Ok ids ∧
    findNodesById (fileOf iconsDocument) ids = Ok [Obj iconsFrame].
Proof.
  apply (findNodesById_of_resolved_name _ iconsDocument "Icons" iconsFrame);
    [reflexivity| |reflexivity|discriminate].
  apply (bool_decide_unpack _). vm_compute. exact I.
Defined.

(** X3: what a search that finds nothing answers: [undefined] at a node
    that has a [children] array, [null] at a node that has none. This holds
    for the search by identifier and for the search by name. *)
Theorem findNode_absent_kind (nodeId : Value) (nm : string) (n : Node) :
  (List.find (idIs nodeId) (preorder n) = None →
   findNode nodeId n = match children n with
                       | Some _ => Undefined
                       | None => Null
                       end) ∧
  (List.find (isFrameNamed nm) (preorder n) = None →
   findNameInNode nm n = match children n with
                         | Some _ => VUndefined
                         | None => VNull
                         end).
Proof.
  split.
  - destruct n as [i m t [cs|]]; simpl; unfold idIs at 1; simpl;
      case_bool_decide; try done.
    intros Hnone. unfold Array_find.
    destruct (List.find BooleanRef _) as [r|] eqn:Hfind; [|done].
    apply find_some in Hfind as [Hin Hr].
    apply in_map_iff in Hin as (c & <- & Hin%list_elem_of_In).
    pose proof (find_concat_None _ _ _ Hnone c Hin) as Hc.
    rewrite <- findNode_preorder in Hc. by destruct (findNode nodeId c).
  - destruct n as [i m t [cs|]]; simpl;
      change (isFrameNamed nm (mkNode i m t _))
        with (bool_decide (nm = m) && bool_decide (t = "FRAME"));
      destruct (bool_decide (nm = m) && bool_decide (t = "FRAME"));
      try done.
    intros Hnone. unfold Array_find.
    destruct (List.find Boolean _) as [v|] eqn:Hfind; [|done].
    apply find_some in Hfind as [Hin Hv].
    apply in_map_iff in Hin as (c & <- & Hin%list_elem_of_In).
    pose proof (find_concat_None _ _ _ Hnone c Hin) as Hc.
    apply (proj1 (findNameInNode_preorder nm c)) in Hc. congruence.
Qed.

Lemma findNode_absent_kind_witness :
  findNode (VStr "9:9") iconsDocument = Undefined ∧
  findNode (VStr "9:9") iconsText = Null ∧
  findNameInNode "Missing" iconsDocument = VUndefined ∧
  findNameInNode "Missing" iconsText = VNull.
Proof.
  split; [exact (proj1 (findNode_absent_kind (VStr "9:9") "" iconsDocument) eq_refl)|].
  split; [exact (proj1 (findNode_absent_kind (VStr "9:9") "" iconsText) eq_refl)|].
  split; [exact (proj2 (findNode_absent_kind VNull "Missing" iconsDocument) eq_refl)|].
  exact (proj2 (findNode_absent_kind VNull "Missing" iconsText) eq_refl).
Defined.

(** ** Asset list builder: failure *)

Lemma makeAssetList_step_throws (frames : list Node)
    (assetList : gmap string string) :
  Exists (λ f, children f = None) frames →
  foldlM
    (λ assetList frame,
       match children frame with
       | Some cs =>
           Ok (fold_left (λ assetList node, assign (name node) (id node) assetList)
                 cs assetList)
       | None => Throw TypeError
       end) frames assetList = Throw TypeError.
Proof.
  intros Hex. revert assetList.
  induction frames as [|f frames IH]; intros assetList; [by inversion Hex|].
  simpl. destruct (children f) as [cs|] eqn:Hf; [|done]. simpl.
  apply IH. inversion Hex as [? ? Hnone|]; [congruence|done].
Qed.

Lemma children_lists (frames : list Node) :
  Forall (λ f, is_Some (children f)) frames →
  ∃ css, children <$> frames = Some <$> css.
Proof.
  induction 1 as [|f frames [cs Hcs] _ [css Hcss]]; [by exists []|].
  exists (cs :: css). by rewrite !fmap_cons, Hcs, Hcss.
Qed.

Lemma filterBoolean_Obj {A} (l : list A) : filterBoolean (Obj <$> l) = l.
Proof.
  unfold filterBoolean. induction l as [|x l IH]; simpl; [done|].
  by f_equal.
Qed.

(** X4: [makeAssetList] fails exactly when one of the frames it keeps has
    no [children] array, and it never fails with anything but a
    [TypeError]. *)
Theorem makeAssetList_throws (frames : list (Ref Node)) :
  (makeAssetList frames = Throw TypeError ↔
   Exists (λ f, children f = None) (filterBoolean frames)) ∧
  (∀ e, makeAssetList frames = Throw e → e = TypeError).
Proof.
  assert (Hcases : Exists (λ f, children f = None) (filterBoolean frames) ∨
                   Forall (λ f, is_Some (children f)) (filterBoolean frames)).
  { induction (filterBoolean frames) as [|f l [?|IH]]; [by right|by left; right|].
    destruct (children f) eqn:Hf; [|by left; left].
    right. constructor; [by rewrite Hf|done]. }
  destruct Hcases as [Hex|Hall].
  - pose proof (makeAssetList_step_throws _ ∅ Hex) as Hthrow.
    fold (makeAssetList frames) in Hthrow.
    split; [done|]. intros e. rewrite Hthrow. by intros [= <-].
  - destruct (children_lists _ Hall) as [css Hcss].
    pose proof (makeAssetList_fold _ css ∅ Hcss) as Hok.
    fold (makeAssetList frames) in Hok. rewrite Hok.
    split; [|done]. split; [done|].
    intros Hex. apply Exists_exists in Hex as (f & Hf & Hnone).
    rewrite Forall_forall in Hall. specialize (Hall f Hf).
    rewrite Hnone in Hall. by destruct Hall.
Qed.

Lemma makeAssetList_throws_witness :
  makeAssetList [Obj sidebarFrame; Undefined; Obj iconsText] = Throw TypeError.
Proof.
  apply (proj1 (makeAssetList_throws _)). right. by left.
Defined.

(** ** Orchestrator: the paths of [getFigmassets] *)

(** [getFigmassets] once the file has been fetched. *)
Lemma getFigmassets_fetched
    (frameIds : list Value) (frameNames : list string)
    (fileKey personalAccessToken : string) (scales : list Number)
    (format : string) (fetchFunc : string → string → Result Response)
    (response : Response) (o : Body) (root : Node) :
  fetchFunc (requestUrl ("files/" +:+ fileKey) None) personalAccessToken
    = Ok response →
  (status response < 400)%N →
  json response = Ok (JsonObject o) →
  document o = Some root →
  getFigmassets frameIds frameNames fileKey personalAccessToken scales format
    fetchFunc =
  match matchedFrames root frameIds frameNames with
  | [] =>
      Throw (Error ("No matching frames for " +:+
                    Array_toString (requestedIds root frameIds frameNames) +:+
                    ", " +:+ Array_join "," frameNames))
  | frames =>
      assetList ← makeAssetList (Obj <$> frames);
      getAssetImages {| _personalAccessToken := personalAccessToken;
                        _fetchFunc := fetchFunc |}
        fileKey assetList scales format
  end.
Proof.
  intros Hfetch Hstatus Hjson Hdoc. unfold getFigmassets.
  rewrite (get_success _ _ _ response) by done. rewrite Hjson. simpl.
  assert (Hf : (match frameNames with
                | [] => Ok frameIds
                | _ => ids ← findNodeIdsForNames (JsonObject o) frameNames;
                       Ok (frameIds ++ ids)
                end) = Ok (requestedIds root frameIds frameNames)).
  { unfold requestedIds. destruct frameNames as [|nm names]; [done|].
    unfold findNodeIdsForNames, getDocument. rewrite Hdoc.
    simpl. by rewrite (mapM_Ok (λ nm, findNameInNode nm root)). }
  rewrite Hf. simpl.
  unfold findNodesById, getDocument. rewrite Hdoc. simpl.
  rewrite (mapM_Ok (λ nodeId, findNode nodeId root)). simpl.
  fold (matchedFrames root frameIds frameNames).
  by destruct (matchedFrames root frameIds frameNames).
Qed.

Lemma elem_of_matchedFrames (root : Node) (frameIds : list Value)
    (frameNames : list string) (nodeId : Value) (f : Node) :
  nodeId ∈ requestedIds root frameIds frameNames →
  List.find (idIs nodeId) (preorder root) = Some f →
  f ∈ matchedFrames root frameIds frameNames.
Proof.
  intros Hin Hfind. unfold matchedFrames, filterBoolean.
  apply list_elem_of_omap. exists (findNode nodeId root). split.
  - apply list_elem_of_fmap. by exists nodeId.
  - by rewrite findNode_preorder.
Qed.

Lemma elem_of_requestedIds (root : Node) (frameIds : list Value)
    (frameNames : list string) (nodeId : Value) :
  nodeId ∈ frameIds → nodeId ∈ requestedIds root frameIds frameNames.
Proof.
  intros Hin. unfold requestedIds. destruct frameNames; [done|].
  apply elem_of_app. by left.
Qed.

(** X5: once the file is fetched, requesting by identifier a node that has
    no [children] array makes [getFigmassets] fail with a [TypeError],
    whatever else is requested: no image is asked for. *)
Theorem getFigmassets_leaf_frame
    (frameIds : list Value) (frameNames : list string)
    (fileKey personalAccessToken : string) (scales : list Number)
    (format : string) (fetchFunc : string → string → Result Response)
    (response : Response) (o : Body) (root : Node)
    (nodeId : Value) (leaf : Node) :
  fetchFunc (requestUrl ("files/" +:+ fileKey) None) personalAccessToken
    = Ok response →
  (status response < 400)%N →
  json response = Ok (JsonObject o) →
  document o = Some root →
  nodeId ∈ frameIds →
  List.find (idIs nodeId) (preorder root) = Some leaf →
  children leaf = None →
  getFigmassets frameIds frameNames fileKey personalAccessToken scales format
    fetchFunc = Throw TypeError.
Proof.
  intros Hfetch Hstatus Hjson Hdoc Hin Hfind Hleaf.
  rewrite (getFigmassets_fetched _ _ _ _ _ _ _ response o root) by done.
  assert (Hmatched : leaf ∈ matchedFrames root frameIds frameNames).
  { apply (elem_of_matchedFrames _ _ _ nodeId); [|done].
    by apply elem_of_requestedIds. }
  assert (Hthrow : makeAssetList (Obj <$> matchedFrames root frameIds frameNames)
                   = Throw TypeError).
  { unfold makeAssetList. rewrite filterBoolean_Obj.
    apply makeAssetList_step_throws, Exists_exists. by exists leaf. }
  destruct (matchedFrames root frameIds frameNames) as [|f frames];
    [by apply elem_of_nil in Hmatched|].
  by rewrite Hthrow.
Qed.

Lemma getFigmassets_leaf_frame_witness :
  getFigmassets [VStr "1:1"] [] "KEY" "token" [Dec 1 0] "png" fetchIconsDocument
    = Throw TypeError.
Proof.
  apply (getFigmassets_leaf_frame [VStr "1:1"] [] "KEY" "token" [Dec 1 0] "png"
           fetchIconsDocument
           {| status := 200; json := Ok (fileOf iconsDocument) |}
           {| err := VUndefined; document := Some iconsDocument;
              images := None |}
           iconsDocument (VStr "1:1") iconsText);
    [reflexivity|vm_compute; reflexivity|reflexivity|reflexivity|by left|
     reflexivity|reflexivity].
Defined.

(** X6: when the request for the file fails, [getFigmassets] fails with the
    same error; when it is answered with a status of 400 or more,
    [getFigmassets] fails with the client's [HTTP error <status> accessing
    Figma.] message. *)
Theorem getFigmassets_file_request_fails
    (frameIds : list Value) (frameNames : list string)
    (fileKey personalAccessToken : string) (scales : list Number)
    (format : string) (fetchFunc : string → string → Result Response) :
  (∀ e,
     fetchFunc (requestUrl ("files/" +:+ fileKey) None) personalAccessToken
       = Throw e →
     getFigmassets frameIds frameNames fileKey personalAccessToken scales
       format fetchFunc = Throw e) ∧
  (∀ response,
     fetchFunc (requestUrl ("files/" +:+ fileKey) None) personalAccessToken
       = Ok response →
     (400 ≤ status response)%N →
     ∃ detail,
       getFigmassets frameIds frameNames fileKey personalAccessToken scales
         format fetchFunc =
       Throw (Error ("HTTP error " +:+ pretty (status response) +:+
                     " accessing Figma. " +:+ detail))).
Proof.
  split.
  - intros e Hfetch. unfold getFigmassets, get. simpl. by rewrite Hfetch.
  - intros response Hfetch Hstatus. eexists. unfold getFigmassets.
    rewrite (get_error_status _ _ _ response) by done. done.
Qed.

Lemma getFigmassets_file_request_fails_witness :
  getFigmassets [VStr "1:2"] [] "KEY" "token" [Dec 1 0] "png"
    (λ _ _, Throw (Error "offline")) = Throw (Error "offline") ∧
  ∃ detail,
    getFigmassets [VStr "1:2"] [] "KEY" "token" [Dec 1 0] "png"
      (λ _ _, Ok forbidden) =
    Throw (Error ("HTTP error " +:+ "403" +:+ " accessing Figma. " +:+ detail)).
Proof.
  split.
  - exact (proj1 (getFigmassets_file_request_fails [VStr "1:2"] [] "KEY" "token"
                    [Dec 1 0] "png" (λ _ _, Throw (Error "offline")))
             _ eq_refl).
  - refine (proj2 (getFigmassets_file_request_fails [VStr "1:2"] [] "KEY" "token"
                     [Dec 1 0] "png" (λ _ _, Ok forbidden))
              forbidden eq_refl _).
    vm_compute. discriminate.
Defined.

(** X7: a file answer that is [null] or has no [document]. With no
    identifier and no name requested the document is never read and the
    call fails with [No matching frames for , ]; with anything requested it
    fails with a [TypeError]. *)
Theorem getFigmassets_no_document
    (frameIds : list Value) (frameNames : list string)
    (fileKey personalAccessToken : string) (scales : list Number)
    (format : string) (fetchFunc : string → string → Result Response)
    (response : Response) (file : Json) :
  fetchFunc (requestUrl ("files/" +:+ fileKey) None) personalAccessToken
    = Ok response →
  (status response < 400)%N →
  json response = Ok file →
  file = JsonNull ∨ (∃ o, file = JsonObject o ∧ document o = None) →
  (frameIds = [] → frameNames = [] →
   getFigmassets frameIds frameNames fileKey personalAccessToken scales format
     fetchFunc = Throw (Error "No matching frames for , ")) ∧
  (frameIds ≠ [] ∨ frameNames ≠ [] →
   getFigmassets frameIds frameNames fileKey personalAccessToken scales format
     fetchFunc = Throw TypeError).
Proof.
  intros Hfetch Hstatus Hjson Hfile. unfold getFigmassets.
  rewrite (get_success _ _ _ response) by done. rewrite Hjson. simpl.
  assert (Hdoc : getDocument file = Throw TypeError).
  { destruct Hfile as [->|(o & -> & Ho)]; [done|]. simpl. by rewrite Ho. }
  split.
  - by intros -> ->.
  - intros Hne. destruct frameNames as [|nm names].
    + destruct frameIds as [|nodeId frameIds]; [by destruct Hne|].
      simpl. unfold findNodesById. simpl. by rewrite Hdoc.
    + unfold findNodeIdsForNames. simpl. by rewrite Hdoc.
Qed.

Lemma getFigmassets_no_document_witness :
  getFigmassets [] [] "KEY" "token" [Dec 1 0] "png" (λ _ _, Ok (imagesResponse ∅))
    = Throw (Error "No matching frames for , ") ∧
  getFigmassets [] ["Icons"] "KEY" "token" [Dec 1 0] "png"
    (λ _ _, Ok (imagesResponse ∅)) = Throw TypeError.
Proof.
  split.
  - refine (proj1 (getFigmassets_no_document [] [] "KEY" "token" [Dec 1 0] "png"
                     (λ _ _, Ok (imagesResponse ∅)) (imagesResponse ∅) _
                     eq_refl _ eq_refl _) eq_refl eq_refl).
    + vm_compute. reflexivity.
    + right. eexists. split; reflexivity.
  - refine (proj2 (getFigmassets_no_document [] ["Icons"] "KEY" "token"
                     [Dec 1 0] "png"
                     (λ _ _, Ok (imagesResponse ∅)) (imagesResponse ∅) _
                     eq_refl _ eq_refl _) _).
    + vm_compute. reflexivity.
    + right. eexists. split; reflexivity.
    + by right.
Defined.

(** X8: in a fetched document whose identifiers are all different,
    requesting a frame by its identifier is [getAssetImages] on the asset
    list of its immediate children; requesting it by its name gives the
    same result when it is the first frame of that name and its identifier
    is not empty. *)
Theorem getFigmassets_by_id_or_name
    (nm fileKey personalAccessToken : string) (scales : list Number)
    (format : string) (fetchFunc : string → string → Result Response)
    (response : Response) (o : Body) (root frame : Node) (cs : list Node) :
  fetchFunc (requestUrl ("files/" +:+ fileKey) None) personalAccessToken
    = Ok response →
  (status response < 400)%N →
  json response = Ok (JsonObject o) →
  document o = Some root →
  NoDup (id <$> preorder root) →
  frame ∈ preorder root →
  children frame = Some cs →
  getFigmassets [VStr (id frame)] [] fileKey personalAccessToken scales format
    fetchFunc =
    getAssetImages {| _personalAccessToken := personalAccessToken;
                      _fetchFunc := fetchFunc |}
      fileKey (assetListOf cs) scales format ∧
  (List.find (isFrameNamed nm) (preorder root) = Some frame →
   id frame ≠ "" →
   getFigmassets [] [nm] fileKey personalAccessToken scales format fetchFunc =
     getFigmassets [VStr (id frame)] [] fileKey personalAccessToken scales
       format fetchFunc).
Proof.
  intros Hfetch Hstatus Hjson Hdoc Hunique Hin Hcs.
  assert (Hnode : findNode (VStr (id frame)) root = Obj frame).
  { apply findNode_toOption. rewrite findNode_preorder.
    by apply find_idIs_unique. }
  assert (Hbyid : matchedFrames root [VStr (id frame)] [] = [frame]).
  { unfold matchedFrames, requestedIds, filterBoolean. simpl. by rewrite Hnode. }
  split.
  - rewrite (getFigmassets_fetched _ _ _ _ _ _ _ response o root) by done.
    rewrite Hbyid. unfold makeAssetList. rewrite filterBoolean_Obj. simpl.
    rewrite Hcs. done.
  - intros Hfirst Hid.
    rewrite !(getFigmassets_fetched _ _ _ _ _ _ _ response o root) by done.
    assert (Hbyname : matchedFrames root [] [nm] = [frame]).
    { unfold matchedFrames, requestedIds, filterBoolean. simpl.
      rewrite (proj2 (findNameInNode_preorder nm root) frame Hfirst Hid).
      by rewrite Hnode. }
    by rewrite Hbyname, Hbyid.
Qed.

Lemma getFigmassets_by_id_or_name_witness :
  getFigmassets [VStr "2:1"] [] "KEY" "token" [Dec 1 0] "png" fetchToolbar =
    getAssetImages {| _personalAccessToken := "token";
                      _fetchFunc := fetchToolbar |}
      "KEY" {[ "icon" := "2:2" ]} [Dec 1 0] "png" ∧
  getFigmassets [] ["Sidebar"] "KEY" "token" [Dec 1 0] "png" fetchToolbar =
    getFigmassets [VStr "2:1"] [] "KEY" "token" [Dec 1 0] "png" fetchToolbar.
Proof.
  assert (H := getFigmassets_by_id_or_name "Sidebar" "KEY" "token" [Dec 1 0]
                 "png" fetchToolbar
                 {| status := 200; json := Ok (fileOf toolbarDocument) |}
                 {| err := VUndefined; document := Some toolbarDocument;
                    images := None |}
                 toolbarDocument sidebarFrame
                 [mkNode "2:2" "icon" "VECTOR" None]
                 eq_refl).
  destruct H as [Hid Hname].
  - vm_compute. reflexivity.
  - reflexivity.
  - reflexivity.
  - apply (bool_decide_unpack _). vm_compute. exact I.
  - apply list_elem_of_In. simpl. do 6 right. left. reflexivity.
  - reflexivity.
  - split; [exact Hid|]. apply Hname; [reflexivity|discriminate].
Defined.

Lemma matchedFrames_unmatched (root : Node) (before after : list Value)
    (unmatched : Value) (frameNames : list string) :
  List.find (idIs unmatched) (preorder root) = None →
  matchedFrames root (before ++ unmatched :: after) frameNames
  = matchedFrames root (before ++ after) frameNames.
Proof.
  intros Hnone. unfold matchedFrames, requestedIds, filterBoolean.
  assert (Hskip : ∀ rest : list Value,
    omap toOption ((λ nodeId, findNode nodeId root)
                     <$> (before ++ unmatched :: after) ++ rest)
    = omap toOption ((λ nodeId, findNode nodeId root)
                       <$> (before ++ after) ++ rest)).
  { intros rest. rewrite <- !(assoc_L (++)), !fmap_app, !omap_app.
    rewrite fmap_cons. simpl. by rewrite findNode_preorder, Hnone. }
  destruct frameNames as [|nm names]; [|apply Hskip].
  specialize (Hskip []). by rewrite !app_nil_r in Hskip.
Qed.

(** X9: an identifier that matches no node of the fetched document is
    ignored as long as another requested identifier matches: the result is
    that of the request without it. *)
Theorem getFigmassets_ignores_unmatched
    (before after : list Value) (unmatched : Value) (frameNames : list string)
    (fileKey personalAccessToken : string) (scales : list Number)
    (format : string) (fetchFunc : string → string → Result Response)
    (response : Response) (o : Body) (root : Node)
    (nodeId : Value) (frame : Node) :
  fetchFunc (requestUrl ("files/" +:+ fileKey) None) personalAccessToken
    = Ok response →
  (status response < 400)%N →
  json response = Ok (JsonObject o) →
  document o = Some root →
  List.find (idIs unmatched) (preorder root) = None →
  nodeId ∈ before ++ after →
  List.find (idIs nodeId) (preorder root) = Some frame →
  getFigmassets (before ++ unmatched :: after) frameNames fileKey
    personalAccessToken scales format fetchFunc =
  getFigmassets (before ++ after) frameNames fileKey personalAccessToken
    scales format fetchFunc.
Proof.
  intros Hfetch Hstatus Hjson Hdoc Hnone Hin Hfind.
  rewrite !(getFigmassets_fetched _ _ _ _ _ _ _ response o root) by done.
  rewrite matchedFrames_unmatched by done.
  assert (Hmatched : frame ∈ matchedFrames root (before ++ after) frameNames).
  { apply (elem_of_matchedFrames _ _ _ nodeId); [|done].
    by apply elem_of_requestedIds. }
  destruct (matchedFrames root (before ++ after) frameNames);
    [by apply elem_of_nil in Hmatched|done].
Qed.

Lemma getFigmassets_ignores_unmatched_witness :
  getFigmassets [VStr "2:1"; VStr "9:9"] [] "KEY" "token" [Dec 1 0] "png"
    fetchToolbar =
  getFigmassets [VStr "2:1"] [] "KEY" "token" [Dec 1 0] "png" fetchToolbar.
Proof.
  apply (getFigmassets_ignores_unmatched [VStr "2:1"] [] (VStr "9:9") [] "KEY"
           "token" [Dec 1 0] "png" fetchToolbar
           {| status := 200; json := Ok (fileOf toolbarDocument) |}
           {| err := VUndefined; document := Some toolbarDocument;
              images := None |}
           toolbarDocument (VStr "2:1") sidebarFrame);
    [reflexivity|vm_compute; reflexivity|reflexivity|reflexivity|reflexivity|
     by left|reflexivity].
Defined.

(** ** Image resolver: failure, empty inputs and the keys of an entry *)

Lemma mapM_Throw {A B} (f : A → Result B) (l : list A) (x : A) (e : Exn) :
  x ∈ l → f x = Throw e →
  ∃ x' e', x' ∈ l ∧ f x' = Throw e' ∧ mapM f l = Throw e'.
Proof.
  induction l as [|y l IH]; [by intros ?%elem_of_nil|].
  intros Hin Hx. destruct (f y) as [b|e0] eqn:Hy.
  - apply elem_of_cons in Hin as [->|Hin]; [congruence|].
    destruct (IH Hin Hx) as (x' & e' & Hx' & Hfx' & HmapM).
    exists x', e'. split; [by right|]. split; [done|].
    simpl. rewrite Hy. simpl. by rewrite HmapM.
  - exists y, e0. split; [by left|]. split; [done|]. simpl. by rewrite Hy.
Qed.

(** X10: if the image request of one of the scales fails,
    [getAssetImages] fails as a whole, with the error of a failing
    request: no partial record is returned. *)
Theorem getAssetImages_request_fails (api : figmaApi) (fileKey format : string)
    (assetList : gmap string string) (scales : list Number)
    (scale : Number) (e : Exn) :
  scale ∈ scales →
  getImageList api fileKey assetList format scale = Throw e →
  ∃ failed e',
    failed ∈ scales ∧
    getImageList api fileKey assetList format failed = Throw e' ∧
    getAssetImages api fileKey assetList scales format = Throw e'.
Proof.
  intros Hin Hfail.
  destruct (mapM_Throw (getImageList api fileKey assetList format) scales
              scale e Hin Hfail) as (failed & e' & Hfailed & He' & HmapM).
  exists failed, e'. split; [done|]. split; [done|].
  unfold getAssetImages. by rewrite HmapM.
Qed.

Lemma getAssetImages_request_fails_witness :
  getAssetImages {| _personalAccessToken := "token";
                    _fetchFunc := fetchScale2Forbidden |}
    "KEY" exampleAssetList [Dec 1 0; Dec 2 0] "png"
  = Throw (Error "HTTP error 403 accessing Figma. Invalid token").
Proof.
  destruct (getAssetImages_request_fails
              {| _personalAccessToken := "token";
                 _fetchFunc := fetchScale2Forbidden |}
              "KEY" "png" exampleAssetList [Dec 1 0; Dec 2 0] (Dec 2 0)
              (Error "HTTP error 403 accessing Figma. Invalid token"))
    as (failed & e' & Hfailed & He' & ->).
  - right. by left.
  - vm_compute. reflexivity.
  - apply elem_of_cons in Hfailed as [->|Hfailed]; [by vm_compute in He'|].
    apply list_elem_of_singleton in Hfailed as ->.
    vm_compute in He'. by injection He' as <-.
Defined.

Lemma entryAfter_snoc (name : string) (merged : list Number)
    (scale : Number) (url : Value)
    (nodeId : string) (entry : option (gmap string Value)) :
  entryAfter name merged entry →
  entryAfter name (merged ++ [scale])
    (Some (<[scaleKey scale := url]> (default (newEntry name nodeId) entry))).
Proof.
  intros Hentry.
  assert (Hdom : dom (<[scaleKey scale := url]>
                        (default (newEntry name nodeId) entry))
                 = (if isInherited name then ∅ else {["id"]}) ∪
                   list_to_set (scaleKey <$> merged ++ [scale])).
  { rewrite dom_insert_L, fmap_app, list_to_set_app_L. simpl.
    destruct merged as [|s0 merged]; simpl in Hentry.
    - rewrite Hentry. simpl. unfold newEntry.
      destruct (isInherited name);
        [rewrite dom_empty_L|rewrite dom_singleton_L];
        apply set_eq; intros k;
        rewrite !elem_of_union, !elem_of_singleton, ?elem_of_empty; tauto.
    - destruct Hentry as (asset & -> & Hdom). simpl. rewrite Hdom.
      apply set_eq. intros k.
      rewrite !elem_of_union, !elem_of_singleton, elem_of_empty. tauto. }
  unfold entryAfter. destruct (merged ++ [scale]) eqn:Happ.
  - by destruct merged.
  - by eexists.
Qed.

(** The loop over the scales: the keys of the entries. *)
Lemma mergeScales_entry_keys (assetList : gmap string string)
    (l : list (Number * Json)) :
  ∀ (merged : list Number) (assetsWithUrls record : gmap string (gmap string Value)),
  foldlM (λ assetsWithUrls (si : Number * Json),
            addScale assetList si.1 si.2 assetsWithUrls) l assetsWithUrls
    = Ok record →
  (∀ name,
     match assetList !! name with
     | Some nodeId => entryAfter name merged (assetsWithUrls !! name)
     | None => assetsWithUrls !! name = None
     end) →
  ∀ name,
    match assetList !! name with
    | Some nodeId => entryAfter name (merged ++ l.*1) (record !! name)
    | None => record !! name = None
    end.
Proof.
  induction l as [|[scale imageList] l IH];
    intros merged assetsWithUrls record Hfold Hinv name.
  { simpl in Hfold. injection Hfold as <-. rewrite app_nil_r. apply Hinv. }
  simpl in Hfold.
  destruct (addScale assetList scale imageList assetsWithUrls)
    as [updated|] eqn:Hupdated; simpl in Hfold; [|done].
  specialize (IH (merged ++ [scale]) updated record Hfold).
  rewrite fmap_cons. simpl.
  replace (merged ++ scale :: l.*1) with ((merged ++ [scale]) ++ l.*1)
    by by rewrite <- (assoc_L (++)).
  apply IH. clear name. intros name.
  pose proof (addScale_lookup _ _ _ _ _ Hupdated name) as Hname.
  specialize (Hinv name).
  destruct (assetList !! name) as [nodeId|]; [|by rewrite Hname].
  destruct Hname as (url & _ & ->). by apply entryAfter_snoc.
Qed.

Lemma getAssetImages_loop (api : figmaApi) (fileKey format : string)
    (assetList : gmap string string) (scales : list Number)
    (record : gmap string (gmap string Value)) :
  getAssetImages api fileKey assetList scales format = Ok record →
  ∀ name,
    match assetList !! name with
    | Some nodeId => entryAfter name scales (record !! name)
    | None => record !! name = None
    end.
Proof.
  intros Hget. unfold getAssetImages in Hget.
  destruct (mapM _ scales) as [imageLists|] eqn:HmapM; simpl in Hget; [|done].
  apply mapM_Ok_length in HmapM.
  pose proof (mergeScales_entry_keys assetList _ [] ∅ record Hget) as Hinv.
  simpl in Hinv. rewrite fst_zip in Hinv by lia.
  apply Hinv. intros name. rewrite lookup_empty. by destruct (_ !! _).
Qed.




(** X12: with no scale requested [getAssetImages] returns the empty
    record, without a request; and a record it returns is empty exactly
    when no scale was requested or the asset list is empty. *)
Theorem getAssetImages_empty (api : figmaApi) (fileKey format : string)
    (assetList : gmap string string) (scales : list Number) :
  getAssetImages api fileKey assetList [] format = Ok ∅ ∧
  ∀ record,
    getAssetImages api fileKey assetList scales format = Ok record →
    (record = ∅ ↔ scales = [] ∨ assetList = ∅).
Proof.
  split; [done|]. intros record Hget.
  pose proof (getAssetImages_loop _ _ _ _ _ _ Hget) as Hloop.
  split.
  - intros ->. destruct scales as [|s0 scales0]; [by left|]. right.
    apply map_eq. intros name. rewrite lookup_empty.
    specialize (Hloop name). destruct (assetList !! name); [|done].
    destruct Hloop as (asset & Hasset & _). by rewrite lookup_empty in Hasset.
  - intros Hempty. apply map_eq. intros name. rewrite lookup_empty.
    specialize (Hloop name).
    destruct Hempty as [-> | ->]; [by destruct (assetList !! name)|].
    by rewrite lookup_empty in Hloop.
Qed.

Lemma getAssetImages_empty_witness :
  exampleRecord = ∅ ↔ [Dec 1 0; Dec 2 0] = [] ∨ exampleAssetList = ∅.
Proof.
  apply (proj2 (getAssetImages_empty exampleApi "KEY" "png" exampleAssetList
                  [Dec 1 0; Dec 2 0])).
  vm_compute. reflexivity.
Defined.

(** ** Scale keys: writing and reading back *)

Lemma normalize_normal (m : N) (e : nat) :
  (normalize m e).2 = O ∨ ((normalize m e).1 `mod` 10 ≠ 0)%N.
Proof.
  revert m. induction e as [|e IH]; intros m; simpl; [by left|].
  destruct (N.eqb_spec (m `mod` 10) 0) as [Hm|Hm]; [apply IH|by right].
Qed.

(** Two decimals in lowest terms with the same value are the same. *)
Lemma normal_unique (m1 m2 : N) (e1 e2 : nat) :
  e1 = O ∨ (m1 `mod` 10 ≠ 0)%N →
  e2 = O ∨ (m2 `mod` 10 ≠ 0)%N →
  (m1 * 10 ^ N.of_nat e2 = m2 * 10 ^ N.of_nat e1)%N →
  m1 = m2 ∧ e1 = e2.
Proof.
  assert (Hlt : ∀ (a b : N) (x d : nat),
            (a * 10 ^ N.of_nat (x + S d) = b * 10 ^ N.of_nat x)%N →
            (b `mod` 10 = 0)%N).
  { intros a b x d H.
    rewrite Nat2N.inj_add, N.pow_add_r, Nat2N.inj_succ, N.pow_succ_r' in H.
    assert (b = 10 * (a * 10 ^ N.of_nat d))%N as ->.
    { apply (N.mul_cancel_r _ _ (10 ^ N.of_nat x)); [apply N.pow_nonzero; lia|].
      rewrite <- H. ring. }
    by rewrite N.mul_comm, N.Div0.mod_mul. }
  intros H1 H2 Hval.
  destruct (lt_eq_lt_dec e1 e2) as [[Hlt12|<-]|Hlt21].
  - exfalso. replace e2 with (e1 + S (e2 - e1 - 1)) in Hval by lia.
    destruct H2 as [->|H2]; [lia|]. apply H2. by eapply Hlt.
  - split; [|done].
    apply N.mul_cancel_r in Hval; [done|]. apply N.pow_nonzero. lia.
  - exfalso. replace e1 with (e2 + S (e1 - e2 - 1)) in Hval by lia.
    destruct H1 as [->|H1]; [lia|]. apply H1. symmetry in Hval. by eapply Hlt.
Qed.

Lemma canonical_same_value (m1 m2 : N) (e1 e2 : nat) :
  canonical (Dec m1 e1) = canonical (Dec m2 e2) ↔
  (m1 * 10 ^ N.of_nat e2 = m2 * 10 ^ N.of_nat e1)%N.
Proof.
  simpl.
  pose proof (normalize_value m1 e1) as Hv1.
  pose proof (normalize_value m2 e2) as Hv2.
  pose proof (normalize_normal m1 e1) as Hn1.
  pose proof (normalize_normal m2 e2) as Hn2.
  destruct (normalize m1 e1) as [n1 f1], (normalize m2 e2) as [n2 f2].
  simpl in *.
  assert (Hcross :
    (n1 * 10 ^ N.of_nat f2 = n2 * 10 ^ N.of_nat f1 ↔
     m1 * 10 ^ N.of_nat e2 = m2 * 10 ^ N.of_nat e1)%N).
  { pose proof (pow10_pos e1). pose proof (pow10_pos e2).
    pose proof (pow10_pos f1). pose proof (pow10_pos f2).
    rewrite <- (N.mul_cancel_r (n1 * 10 ^ N.of_nat f2) _
                  (10 ^ N.of_nat e1 * 10 ^ N.of_nat e2)) by lia.
    rewrite <- (N.mul_cancel_r (m1 * 10 ^ N.of_nat e2) _
                  (10 ^ N.of_nat f1 * 10 ^ N.of_nat f2)) by lia.
    replace (n1 * 10 ^ N.of_nat f2 * (10 ^ N.of_nat e1 * 10 ^ N.of_nat e2))%N
      with (n1 * 10 ^ N.of_nat e1 * (10 ^ N.of_nat e2 * 10 ^ N.of_nat f2))%N
      by ring.
    replace (n2 * 10 ^ N.of_nat f1 * (10 ^ N.of_nat e1 * 10 ^ N.of_nat e2))%N
      with (n2 * 10 ^ N.of_nat e2 * (10 ^ N.of_nat e1 * 10 ^ N.of_nat f1))%N
      by ring.
    replace (m1 * 10 ^ N.of_nat e2 * (10 ^ N.of_nat f1 * 10 ^ N.of_nat f2))%N
      with (m1 * 10 ^ N.of_nat f1 * (10 ^ N.of_nat e2 * 10 ^ N.of_nat f2))%N
      by ring.
    replace (m2 * 10 ^ N.of_nat e1 * (10 ^ N.of_nat f1 * 10 ^ N.of_nat f2))%N
      with (m2 * 10 ^ N.of_nat f2 * (10 ^ N.of_nat e1 * 10 ^ N.of_nat f1))%N
      by ring.
    by rewrite Hv1, Hv2. }
  rewrite <- Hcross. split.
  - by intros [= -> ->].
  - intros Hval. by destruct (normal_unique n1 n2 f1 f2 Hn1 Hn2 Hval) as [-> ->].
Qed.

(** The model prints an exponent where JavaScript does, and such a key
    does not read back as the scale it was written for. *)
Lemma scaleKey_exponent_examples :
  scaleKey (Dec 1 7) = "@1e-7x" ∧
  toNumber (stripNonNumeric "@1e-7x") = Dec 17 0 ∧
  scaleKey (Dec 1000000000000000000000 0) = "@1e+21x" ∧
  toNumber (stripNonNumeric "@1e+21x") = Dec 121 0 ∧
  scaleKey (Dec 15 8) = "@1.5e-7x" ∧
  scaleKey (Dec 1 6) = "@0.000001x" ∧
  scaleKey (Dec 123456789012345000000 0) = "@123456789012345000000x".
Proof. vm_compute. repeat split. Qed.

(** X13: for a scale that is printed without an exponent, the key
    [@<scale>x] written by [getAssetImages] and the number read back from
    it by [addAssetsToMap] ([+k.replace(/[^0-9.]/g, '')]) agree: reading
    gives the scale in lowest terms, writing that again gives the same
    key, and two such scales have the same key exactly when they are the
    same number. *)
Theorem scaleKey_round_trip (m1 m2 : N) (e1 e2 : nat) :
  plain (Dec m1 e1) →
  toNumber (stripNonNumeric (scaleKey (Dec m1 e1))) = canonical (Dec m1 e1) ∧
  scaleKey (toNumber (stripNonNumeric (scaleKey (Dec m1 e1))))
    = scaleKey (Dec m1 e1) ∧
  (plain (Dec m2 e2) →
   (scaleKey (Dec m1 e1) = scaleKey (Dec m2 e2) ↔
    (m1 * 10 ^ N.of_nat e2 = m2 * 10 ^ N.of_nat e1)%N)).
Proof.
  intros Hplain1.
  split; [by apply maxScale_key|]. split.
  - rewrite maxScale_key by done. unfold scaleKey.
    by rewrite Number_toString_canonical.
  - intros Hplain2. rewrite <- canonical_same_value. split.
    + intros Hkey. rewrite <- !maxScale_key by done. by rewrite Hkey.
    + intros Hcanon. unfold scaleKey.
      rewrite <- (Number_toString_canonical (Dec m1 e1)), Hcanon.
      by rewrite Number_toString_canonical.
Qed.

Lemma scaleKey_round_trip_witness :
  toNumber (stripNonNumeric (scaleKey (Dec 150 2))) = Dec 15 1 ∧
  scaleKey (Dec 150 2) = scaleKey (Dec 15 1).
Proof.
  destruct (scaleKey_round_trip 150 15 2 1) as (Hread & _ & Hsame).
  { vm_compute. split; reflexivity. }
  split; [exact Hread|]. apply Hsame; [vm_compute; split; reflexivity|].
  reflexivity.
Defined.

(** ** Image resolver and map integration together *)





(** ** Map integration: the calls *)

(** X15: [addAssetsToMap] issues one [loadImage] call per asset; the
    identifiers the callbacks register are the keys of the record, each
    once; and a callback registers the image it is given, whatever the
    error argument is. *)
Theorem addAssetsToMap_one_call_per_asset {Err Image}
    (assets : gmap string (gmap string Value)) (error : Err) (image : Image) :
  let calls : list (LoadImage Err Image) := addAssetsToMap assets in
  let ids := (λ call, addImage_id (callback call error image)) <$> calls in
  length calls = size assets ∧
  NoDup ids ∧
  (∀ k, k ∈ ids ↔ is_Some (assets !! k)) ∧
  ∀ call, call ∈ calls →
    ∀ error' image',
      callback call error' image' = callback call error image' ∧
      addImage_image (callback call error' image') = image'.
Proof.
  simpl.
  assert (Hids : (λ call : LoadImage Err Image,
                    addImage_id (callback call error image))
                 <$> addAssetsToMap assets = Object_keys assets).
  { unfold addAssetsToMap, Object_keys.
    change (map ?f (map_to_list assets)) with (f <$> map_to_list assets).
    rewrite <- list_fmap_compose. apply list_fmap_ext. by intros i [k a] _. }
  rewrite Hids. split; [|split; [|split]].
  - unfold addAssetsToMap. by rewrite length_map, length_map_to_list.
  - apply NoDup_fst_map_to_list.
  - apply elem_of_Object_keys.
  - intros call Hcall error' image'. unfold addAssetsToMap in Hcall.
    apply list_elem_of_In, in_map_iff in Hcall as ([k a] & <- & _). done.
Qed.

Lemma addAssetsToMap_one_call_per_asset_witness :
  length (addAssetsToMap (Err:=unit) (Image:=unit) untaggedAssets) = 1 ∧
  ∀ k, k ∈ (λ call : LoadImage unit unit, addImage_id (callback call () ()))
             <$> addAssetsToMap untaggedAssets ↔
       is_Some (untaggedAssets !! k).
Proof.
  pose proof (addAssetsToMap_one_call_per_asset (Err:=unit) (Image:=unit)
                untaggedAssets () ()) as (Hlen & _ & Hkeys & _).
  split; [exact Hlen|exact Hkeys].
Defined.

Lemma filter_none {A} (P : A → Prop) `{∀ x, Decision (P x)} (l : list A) :
  (∀ x, x ∈ l → ¬ P x) → filter P l = [].
Proof.
  induction l as [|x l IH]; intros Hl; [done|].
  rewrite filter_cons. case_decide as Hx.
  - destruct (Hl x); [by left|done].
  - apply IH. intros y Hy. apply Hl. by right.
Qed.

(** X16: an asset without a key that starts with [@] has [-Infinity] as
    its largest scale ([Math.max()] of nothing): it is loaded from
    [undefined] and registered with pixel ratio [-Infinity]. *)
Theorem addAssetsToMap_without_scale {Err Image}
    (assets : gmap string (gmap string Value)) (iconId : string)
    (asset : gmap string Value) :
  assets !! iconId = Some asset →
  (∀ k, is_Some (asset !! k) → startsWithAt k = false) →
  maxScale asset = NegInfinity ∧
  ∃ call : LoadImage Err Image,
    call ∈ addAssetsToMap assets ∧
    url call = VUndefined ∧
    ∀ error image,
      callback call error image =
        {| addImage_id := iconId; addImage_image := image;
           pixelRatio := NegInfinity |}.
Proof.
  intros Hasset Hkeys.
  assert (Hmax : maxScale asset = NegInfinity).
  { unfold maxScale. rewrite filter_none; [done|].
    intros k Hk%elem_of_Object_keys. by rewrite (Hkeys k Hk). }
  split; [done|].
  exists {| url := default VUndefined (asset !! scaleKey (maxScale asset));
            callback := λ error image,
              {| addImage_id := iconId; addImage_image := image;
                 pixelRatio := maxScale asset |} |}.
  split; [|split].
  - unfold addAssetsToMap. apply list_elem_of_In, in_map_iff.
    exists (iconId, asset). split; [done|].
    by apply list_elem_of_In, elem_of_map_to_list.
  - simpl. rewrite Hmax.
    destruct (asset !! scaleKey NegInfinity) as [v|] eqn:Hv; [|done].
    by specialize (Hkeys (scaleKey NegInfinity) (mk_is_Some _ _ Hv)).
  - intros error image. simpl. by rewrite Hmax.
Qed.

Lemma addAssetsToMap_without_scale_witness :
  ∃ call : LoadImage unit unit,
    call ∈ addAssetsToMap untaggedAssets ∧
    url call = VUndefined ∧
    ∀ error image,
      callback call error image =
        {| addImage_id := "pin"; addImage_image := image;
           pixelRatio := NegInfinity |}.
Proof.
  refine (proj2 (addAssetsToMap_without_scale (Err:=unit) (Image:=unit)
                   untaggedAssets "pin" {[ "id" := VStr "5:1" ]} eq_refl _)).
  intros k Hk. destruct (decide (k = "id")) as [->|Hne]; [done|].
  rewrite lookup_singleton_ne in Hk by done. by destruct Hk.
Defined.

(** ** Static snapshot loader: the prefix *)

(** X17: normalising the path of [loadStoredFigmassets] twice is the same
    as normalising it once, and the paths it leaves unchanged are the empty
    path and the paths that end with [/]. *)
Theorem normalizePath_idempotent (path : string) :
  normalizePath (normalizePath path) = normalizePath path ∧
  (normalizePath path = path ↔ path = "" ∨ endsWithSlash path).
Proof.
  assert (Hnorm : ∀ p, p ≠ "" → normalizePath p = replaceTrailing p).
  { intros p Hne. unfold normalizePath. by destruct (String.eqb_spec p ""). }
  assert (Hfix : ∀ p, p ≠ "" → endsWithSlash p → normalizePath p = p).
  { intros p Hne Hs. rewrite (Hnorm p Hne).
    by destruct (replaceTrailing_spec p Hne) as [[_ ->]|[Hno _]]. }
  destruct (decide (path = "")) as [->|Hne].
  { split; [done|]. split; [by left|done]. }
  rewrite (Hnorm path Hne).
  destruct (replaceTrailing_spec path Hne) as [[Hs ->]|[Hno ->]].
  - split; [by apply Hfix|]. split; [by right|done].
  - split.
    + apply Hfix; [by destruct path|by exists path].
    + split.
      * intros Heq. apply (f_equal String.length) in Heq.
        rewrite string_app_length in Heq. simpl in Heq. lia.
      * by intros [?|?].
Qed.

Lemma normalizePath_idempotent_witness :
  normalizePath (normalizePath "assets") = normalizePath "assets" ∧
  normalizePath "assets/" = "assets/".
Proof.
  split.
  - exact (proj1 (normalizePath_idempotent "assets")).
  - apply (proj2 (normalizePath_idempotent "assets/")). right. by exists "assets".
Defined.

(** ** API client: what the error depends on *)

(** X18: the error [get] raises on a status of 400 or more depends on the
    response alone: neither the access token nor the requested endpoint or
    its parameters appear in it. *)
Theorem get_error_from_response_only (api1 api2 : figmaApi)
    (endpoint1 endpoint2 : string)
    (params1 params2 : option (list (string * string))) (response : Response) :
  _fetchFunc api1 (requestUrl endpoint1 params1) (_personalAccessToken api1)
    = Ok response →
  _fetchFunc api2 (requestUrl endpoint2 params2) (_personalAccessToken api2)
    = Ok response →
  (400 ≤ status response)%N →
  get api1 endpoint1 params1 = get api2 endpoint2 params2.
Proof.
  intros H1 H2 Hstatus.
  by rewrite (get_error_status _ _ _ response H1 Hstatus),
             (get_error_status _ _ _ response H2 Hstatus).
Qed.

Lemma get_error_from_response_only_witness :
  get (answering forbidden) "files/KEY" None =
  get {| _personalAccessToken := "another secret";
         _fetchFunc := λ _ _, Ok forbidden |}
      "images/OTHER" (Some [("scale", "2")]).
Proof.
  apply (get_error_from_response_only _ _ _ _ _ _ forbidden);
    [reflexivity|reflexivity|].
  vm_compute. discriminate.
Defined.

(** ** Map loader *)

Lemma getFigmassets_Ok_inv
    (frameIds : list Value) (frameNames : list string)
    (fileKey personalAccessToken : string) (scales : list Number)
    (format : string) (fetchFunc : string → string → Result Response)
    (record : gmap string (gmap string Value)) :
  getFigmassets frameIds frameNames fileKey personalAccessToken scales format
    fetchFunc = Ok record →
  ∃ assetList,
    getAssetImages {| _personalAccessToken := personalAccessToken;
                      _fetchFunc := fetchFunc |}
      fileKey assetList scales format = Ok record.
Proof.
  unfold getFigmassets. intros Hget.
  destruct (get _ _ None) as [file|]; simpl in Hget; [|done].
  destruct (match frameNames with [] => _ | _ => _ end) as [ids|];
    simpl in Hget; [|done].
  destruct (findNodesById file ids) as [nodes|]; simpl in Hget; [|done].
  destruct (filterBoolean nodes) as [|frame frames]; [done|].
  destruct (makeAssetList _) as [assetList|]; simpl in Hget; [|done].
  by exists assetList.
Qed.

Lemma loadFigmassets_with_map {Err Image} (args : Args.t)
    (assets : gmap string (gmap string Value))
    (calls : list (LoadImage Err Image)) :
  loadFigmassets true args = Ok (assets, calls) →
  getFigmassets (default [] (Args.frameIds args))
    (default [] (Args.frameNames args)) (Args.fileKey args)
    (Args.personalAccessToken args)
    (default [Dec 2 0] (Args.scales args)) (default "png" (Args.format args))
    (Args.fetchFunc args) = Ok assets ∧
  calls = addAssetsToMap assets.
Proof.
  unfold loadFigmassets. intros Hload.
  destruct args as [fi fn fk tok [scales|] fmt ff]; simpl in *.
  - unfold getFigmassetsOf in Hload. simpl in Hload.
    destruct (getFigmassets _ _ _ _ _ _ _) as [record|]; simpl in Hload;
      [|done].
    by injection Hload as -> ->.
  - unfold getFigmassetsOf in Hload. simpl in Hload.
    destruct (getFigmassets _ _ _ _ _ _ _) as [record|]; simpl in Hload;
      [|done].
    by injection Hload as -> ->.
Qed.



(** X20: with [scales] given, passing a map to [loadFigmassets] changes
    neither the record it returns nor the error it fails with; and with the
    empty list of scales the record is empty and nothing is loaded into the
    map. *)
Theorem loadFigmassets_explicit_scales {Err Image} (args : Args.t)
    (scales : list Number) :
  Args.scales args = Some scales →
  (∀ assets,
     (∃ calls : list (LoadImage Err Image),
        loadFigmassets true args = Ok (assets, calls)) ↔
     loadFigmassets (Err:=Err) (Image:=Image) false args = Ok (assets, [])) ∧
  (∀ e,
     loadFigmassets (Err:=Err) (Image:=Image) true args = Throw e ↔
     loadFigmassets (Err:=Err) (Image:=Image) false args = Throw e) ∧
  (scales = [] →
   ∀ assets (calls : list (LoadImage Err Image)),
     loadFigmassets true args = Ok (assets, calls) →
     assets = ∅ ∧ calls = []).
Proof.
  intros Hscales.
  assert (Htrue : loadFigmassets (Err:=Err) (Image:=Image) true args =
                  assets ← getFigmassetsOf args; Ok (assets, addAssetsToMap assets)).
  { destruct args; simpl in Hscales; by subst. }
  assert (Hfalse : loadFigmassets (Err:=Err) (Image:=Image) false args =
                   assets ← getFigmassetsOf args; Ok (assets, [])).
  { done. }
  split; [|split].
  - intros assets. rewrite Htrue, Hfalse.
    destruct (getFigmassetsOf args) as [record|e]; simpl.
    + split; [by intros [calls [= ->]]|intros [= ->]; by eexists].
    + split; [by intros [calls ?]|done].
  - intros e. rewrite Htrue, Hfalse.
    by destruct (getFigmassetsOf args) as [record|e'].
  - intros -> assets calls Hload.
    apply loadFigmassets_with_map in Hload as [Hget ->].
    rewrite Hscales in Hget. simpl in Hget.
    apply getFigmassets_Ok_inv in Hget as [assetList Himages].
    assert (assets = ∅) as ->.
    { apply map_eq. intros name. rewrite lookup_empty.
      pose proof (getAssetImages_loop _ _ _ _ _ _ Himages name) as Hloop.
      by destruct (assetList !! name). }
    split; [done|]. unfold addAssetsToMap. by rewrite map_to_list_empty.
Qed.

Lemma loadFigmassets_explicit_scales_witness :
  loadFigmassets (Err:=unit) (Image:=unit) true emptyScalesArgs = Ok (∅, []).
Proof.
  destruct (loadFigmassets (Err:=unit) (Image:=unit) true emptyScalesArgs)
    as [[assets calls]|e] eqn:Hload; [|vm_compute in Hload; discriminate].
  destruct (proj2 (proj2 (loadFigmassets_explicit_scales (Err:=unit)
                            (Image:=unit) emptyScalesArgs [] eq_refl))
              eq_refl assets calls Hload) as [-> ->].
  reflexivity.
Defined.

(** ** Static snapshot loader: failures and the trailing slash *)

Lemma endsWithSlash_last (s : string) :
  endsWithSlash s → last (String.list_ascii_of_string s) = Some "/"%char.
Proof.
  intros [t ->]. induction t as [|c t IH]; [done|].
  rewrite string_app_cons. simpl String.list_ascii_of_string.
  rewrite last_cons, IH. done.
Qed.

(** X21: for a non-empty path that does not end with [/],
    [loadStoredFigmassets] behaves as for the path followed by [/]: the
    manifest is requested at [<path>/assets.json]; if that request fails the
    call fails with the same error, and an empty manifest loads nothing. *)
Theorem loadStoredFigmassets_trailing_slash {Err Image}
    (fetch : string → Result (list Asset.t)) (path : string) :
  path ≠ "" →
  ¬ endsWithSlash path →
  loadStoredFigmassets (Err:=Err) (Image:=Image) fetch (path +:+ "/") =
    loadStoredFigmassets fetch path ∧
  (∀ e, fetch (path +:+ "/assets.json") = Throw e →
        loadStoredFigmassets (Err:=Err) (Image:=Image) fetch path = Throw e) ∧
  (fetch (path +:+ "/assets.json") = Ok [] →
   loadStoredFigmassets (Err:=Err) (Image:=Image) fetch path = Ok []).
Proof.
  intros Hne Hno.
  assert (Hne' : path +:+ "/" ≠ "") by by destruct path.
  assert (Hpath : normalizePath path = path +:+ "/").
  { unfold normalizePath. destruct (String.eqb_spec path ""); [done|].
    by destruct (replaceTrailing_spec path Hne) as [[? _]|[_ ->]]. }
  assert (Hpath' : normalizePath (path +:+ "/") = path +:+ "/").
  { unfold normalizePath. destruct (String.eqb_spec (path +:+ "/") ""); [done|].
    destruct (replaceTrailing_spec (path +:+ "/") Hne') as [[_ ->]|[Hno' _]];
      [done|]. destruct Hno'. by exists path. }
  unfold loadStoredFigmassets. rewrite Hpath, Hpath'.
  split; [done|]. rewrite string_app_assoc. str_simpl. split.
  - intros e Hfetch. by rewrite Hfetch.
  - intros Hfetch. by rewrite Hfetch.
Qed.

Lemma loadStoredFigmassets_trailing_slash_witness :
  loadStoredFigmassets (Err:=unit) (Image:=unit) fetchManifestA "assets/" =
    loadStoredFigmassets fetchManifestA "assets" ∧
  loadStoredFigmassets (Err:=unit) (Image:=unit) fetchManifestA "icons"
    = Throw (Error "not found").
Proof.
  split.
  - apply (loadStoredFigmassets_trailing_slash fetchManifestA "assets");
      [done|]. intros Hlast%endsWithSlash_last. discriminate Hlast.
  - apply (loadStoredFigmassets_trailing_slash fetchManifestA "icons");
      [done| |reflexivity]. intros Hlast%endsWithSlash_last.
    discriminate Hlast.
Defined.
